(** * PCprophet feature generation: peak alignment and complex features

    A shallow embedding of [PCprophet/generate_features.py] together with
    the properties of the feature-generation engine that its specification
    states.

    Conventions.
    - Python integers are [Z]; list indices and lengths are [nat].
    - A Python call either returns or raises; [outcome] records which.
      The only unbounded loop of the module, [while True] in
      [shortest_path], is run on fuel, hence the third constructor.
    - [None] is [None] of [option]; a list that may hold [None] is a
      [list (option Z)].
    - The decorator [io.timeit] belongs to the module [io_], which is not
      among the sources; it is taken to hand back what the decorated
      function returns, and decorated functions are embedded without it. *)

From Stdlib Require Import ZArith QArith Qround Lia.
From stdpp Require Import base list sorting gmap sets strings pretty.

Local Open Scope Z_scope.

(** ** Outcomes of a Python call *)

Inductive exn : Set :=
  | IndexError | TypeError | ValueError | KeyError | OverflowError.

Inductive outcome (A : Type) : Type :=
  | Return (a : A)
  | Raise (e : exn)
  | OutOfFuel.
Arguments Return {A} a.
Arguments Raise {A} e.
Arguments OutOfFuel {A}.

Definition obind {A B} (m : outcome A) (k : A → outcome B) : outcome B :=
  match m with
  | Return a => k a
  | Raise e => Raise e
  | OutOfFuel => OutOfFuel
  end.

Definition out_map {A B} (f : A → B) (m : outcome A) : outcome B :=
  obind m (λ a, Return (f a)).

Notation "x ←! m ; k" := (obind m (λ x, k))
  (at level 20, m at level 100, k at level 200, only parsing, right associativity).
Notation "' p ←! m ; k" := (obind m (λ 'p, k))
  (at level 20, p pattern, m at level 100, k at level 200, only parsing,
   right associativity).

(** ** Builtins *)

(** [max(xs)] on integers: [ValueError] on an empty sequence. *)
Definition py_max (xs : list Z) : outcome Z :=
  match xs with
  | [] => Raise ValueError
  | x :: xs' => Return (foldl Z.max x xs')
  end.

(** [max(xs)] on lengths. *)
Definition py_max_len (xs : list nat) : outcome nat :=
  match xs with
  | [] => Raise ValueError
  | x :: xs' => Return (foldl Nat.max x xs')
  end.

(** [xs[start:stop]]: negative bounds count from the end, then both
    bounds are clamped to [0, len(xs)]. *)
Definition slice_bound (n : nat) (i : Z) : nat :=
  let i := if i <? 0 then i + Z.of_nat n else i in
  if i <? 0 then 0%nat else Nat.min (Z.to_nat i) n.

Definition py_slice {A} (xs : list A) (start stop : Z) : list A :=
  let s := slice_bound (length xs) start in
  let e := slice_bound (length xs) stop in
  take (e - s) (drop s xs).

(** [set.intersection] applied to the unpacked sets: it needs at least one
    argument. *)
Definition set_intersection (sets : list (gset Z)) : outcome (gset Z) :=
  match sets with
  | [] => Raise TypeError
  | s :: ss => Return (foldl (∩) s ss)
  end.

(** ** Tier 2: best-first search *)

(** A frontier entry [[peaks, cost]]. *)
Definition partial : Type := list Z * Z.

(** [add_top]: the [while] loop walks past every entry that is strictly
    cheaper than [item], then [insert] puts [item] there. *)
Fixpoint add_top (result : list partial) (item : partial) : list partial :=
  match result with
  | [] => [item]
  | r :: rest =>
      if r.2 <? item.2 then r :: add_top rest item else item :: r :: rest
  end.

(** [minimize]: the two nested loops, with the running [result]. *)
Fixpoint minimize_from (result : Z) (solution : list Z) : Z :=
  match solution with
  | [] => result
  | number1 :: rest =>
      minimize_from
        (foldl (λ result number2, result + Z.abs (number1 - number2)) result rest)
        rest
  end.

Definition minimize (solution : list Z) : Z := minimize_from 0 solution.

(** The [for peak in aoa[len(sol[0])]] loop: every extension of [sol] by
    one peak of the next member is costed and inserted. *)
Definition expand (sol : list Z) (peaks : list Z) (result : list partial)
  : list partial :=
  foldl (λ result peak,
           let new_pk := sol ++ [peak] in
           add_top result (new_pk, minimize new_pk))
        result peaks.

(** The [while True] loop. The value returned is paired with the final
    value of the counter [trial]; [trial - 1] entries were popped. *)
Fixpoint shortest_path_loop (fuel : nat) (aoa : list (list Z))
    (elements : nat) (max_trial : Z) (result : list partial) (trial : Z)
  : outcome (Z * option (list Z)) :=
  match fuel with
  | O => OutOfFuel
  | S fuel =>
      if trial =? max_trial then Return (trial, None)
      else
        let trial := trial + 1 in
        match result with
        | [] => Raise IndexError
        | sol :: result =>
            if Nat.eqb (length sol.1) elements then Return (trial, Some sol.1)
            else
              match aoa !! length sol.1 with
              | None => Raise IndexError
              | Some peaks =>
                  shortest_path_loop fuel aoa elements max_trial
                    (expand sol.1 peaks result) trial
              end
        end
  end.

(** The entries that the loop can pop on [aoa], and one more: a choice
    for the first member, for the first two members, and so on. *)
Fixpoint search_space (aoa : list (list Z)) : nat :=
  match aoa with
  | [] => 1
  | peaks :: rest => S (length peaks * search_space rest)
  end.

(** With [1 <= max_trial] the loop body runs at most [max_trial] times.
    With [max_trial < 1] the counter, which starts at 1, never meets the
    budget: the loop goes on until it returns a selection or pops from
    the emptied frontier, and since every turn pops one entry for good,
    [search_space aoa] turns are enough. *)
Definition shortest_path_run (aoa : list (list Z)) (max_trial : Z)
  : outcome (Z * option (list Z)) :=
  match aoa with
  | [] => Raise IndexError
  | first :: _ =>
      let fuel := if max_trial <? 1 then search_space aoa
                  else Z.to_nat max_trial in
      shortest_path_loop fuel aoa (length aoa) max_trial
        ((λ x, ([x], 0)) <$> first) 1
  end.

Definition shortest_path (aoa : list (list Z)) (max_trial : Z)
  : outcome (option (list Z)) :=
  out_map snd (shortest_path_run aoa max_trial).

Definition default_max_trial : Z := 5000.

(** ** Tier 3: minimum standard deviation column *)

Section MinSd.
(** The column statistic is floating point ([np.std(col, ddof=1)] through
    pandas).  Its values are kept abstract: [sdval] is the type of the
    numbers, [np_std] the statistic of one data-frame column (a cell is
    missing where a row is too short) and [sd_lt] the comparison [<]. *)
Context {sdval : Type}.
Variable np_std : list (option Z) → sdval.
Variable sd_lt : sdval → sdval → bool.

(** [sd.index(min(sd))]: [min] keeps the first element and replaces it
    by each later one that is strictly smaller; [index] then finds that
    very element. *)
Fixpoint min_index_from (cur : sdval) (cur_i i : nat) (sd : list sdval) : nat :=
  match sd with
  | [] => cur_i
  | x :: sd' =>
      if sd_lt x cur then min_index_from x i (S i) sd'
      else min_index_from cur cur_i (S i) sd'
  end.

Definition min_index (sd : list sdval) : option nat :=
  match sd with
  | [] => None
  | x :: sd' => Some (min_index_from x 0%nat 1%nat sd')
  end.

(** [while len(short) < ln: short.append(short[-1])], left at once by
    the [IndexError] of an empty row. *)
Definition pad_row (ln : nat) (short : list Z) : list Z :=
  match last short with
  | None => short
  | Some x => short ++ replicate (ln - length short) x
  end.

(** Columns of [pd.DataFrame(rows)]. *)
Definition columns (rows : list (list Z)) : list (list (option Z)) :=
  (λ j, (λ row : list Z, row !! j) <$> rows)
    <$> seq 0 (foldr Nat.max 0%nat (length <$> rows)).

(** Peaks are integers, so the filter [x is not None] keeps every entry
    and [rf_pk] is [aoa]. *)
Definition min_sd (aoa : list (list Z)) : outcome (option (list (option Z))) :=
  let rf_pk := aoa in
  ln ←! py_max_len (length <$> rf_pk);
  let rf_pk2 := pad_row ln <$> (take ln <$> rf_pk) in
  let sd := np_std <$> columns rf_pk2 in
  match min_index sd with
  | None => Return None
  | Some sd => Return (Some ((λ mx_indx : list Z, mx_indx !! sd) <$> rf_pk2))
  end.
End MinSd.

(** ** The aligner *)

(** [alligner] with the two later tiers as arguments, the way the body
    looks them up in the module when it reaches them. *)
Definition alligner_with
    (tier2 : list (list Z) → outcome (option (list Z)))
    (tier3 : list (list Z) → outcome (option (list (option Z))))
    (aoa : list (list Z)) : outcome (option (list (option Z))) :=
  if existsb (λ x, bool_decide (x = [])) aoa then Return None
  else
    candidate ←! set_intersection (list_to_set <$> aoa);
    if bool_decide (candidate ≠ ∅) then
      m ←! py_max (elements candidate);
      Return (Some (replicate (length aoa) (Some m)))
    else
      pks ←! tier2 aoa;
      match pks with
      | Some (peak :: pks) => Return (Some (Some <$> peak :: pks))
      | _ => tier3 aoa
      end.

Definition alligner {sdval} (np_std : list (option Z) → sdval)
    (sd_lt : sdval → sdval → bool) (aoa : list (list Z))
  : outcome (option (list (option Z))) :=
  alligner_with (λ aoa, shortest_path aoa default_max_trial)
                (min_sd np_std sd_lt) aoa.

(** An exact instance of the column statistic: [n * Σx² - (Σx)²], which
    orders the columns of a full frame as their variance does. *)
Definition exact_spread (col : list (option Z)) : Z :=
  let xs := omap id col in
  Z.of_nat (length xs) * foldr (λ x s, x * x + s) 0 xs
  - foldr Z.add 0 xs * foldr Z.add 0 xs.

(** ** Values stored in [pks_ali] *)

(** A consensus value is an aligned peak or the rounded median (an
    integer), [None] where the fallback found no peak, or [np.nan]. *)
Inductive pyval : Set := PyNone | PyInt (z : Z) | PyNaN.

Definition to_pyval (x : option Z) : pyval :=
  match x with Some z => PyInt z | None => PyNone end.

(** [str(v)]. *)
Definition py_str (v : pyval) : string :=
  match v with
  | PyNone => "None"
  | PyInt z => pretty z
  | PyNaN => "nan"
  end.

(** [int(v)]: [None] is a [TypeError], NaN a [ValueError]. *)
Definition py_int (v : pyval) : outcome Z :=
  match v with
  | PyInt z => Return z
  | PyNone => Raise TypeError
  | PyNaN => Raise ValueError
  end.

(** [int(x)] on a number: truncation towards zero. *)
Definition int_of_number (x : Q) : Z := Z.quot (Qnum x) (Z.pos (Qden x)).

(** [pks_ali] starts as the empty list and becomes a dictionary in
    [align_peaks]. *)
Inductive pks_ali_t : Type :=
  | EmptyList
  | Dict (d : gmap string pyval).

(** [dict(pairs)] and [d[k] = v] on a dictionary read in insertion order:
    a later pair overwrites the value and keeps the place of the key. *)
Definition py_dict {V} (pairs : list (string * V)) : gmap string V :=
  foldl (λ d kv, <[kv.1 := kv.2]> d) ∅ pairs.

Fixpoint dict_set {V} (d : list (string * V)) (k : string) (v : V)
  : list (string * V) :=
  match d with
  | [] => [(k, v)]
  | (k', v') :: d' =>
      if bool_decide (k' = k) then (k, v) :: d' else (k', v') :: dict_set d' k v
  end.

(** [[xs[i] for i in idx]]. *)
Fixpoint lookup_all {A} (xs : list A) (idx : list nat) : outcome (list A) :=
  match idx with
  | [] => Return []
  | i :: idx' =>
      match xs !! i with
      | None => Raise IndexError
      | Some x => out_map (cons x) (lookup_all xs idx')
      end
  end.

(** [for x in xs: ...] with a body that may raise. *)
Fixpoint for_each {A S} (body : S → A → outcome S) (s : S) (xs : list A)
  : outcome S :=
  match xs with
  | [] => Return s
  | x :: xs' => s' ←! body s x; for_each body s' xs'
  end.

Definition tab : string := String (Ascii.ascii_of_nat 9) EmptyString.

Fixpoint join (sep : string) (xs : list string) : string :=
  match xs with
  | [] => ""
  | [x] => x
  | x :: xs' => x +:+ sep +:+ join sep xs'
  end.

(** ** Profiles *)

Section Profiles.
(** Intensities and the statistics over them are floating point; the
    type [float] and the operations of numpy, scipy and the modules
    [stats_] and [parse_go] on it are kept abstract. *)
Variable float : Type.

Record ProteinProfile : Type := mkProtein {
  acc : string;
  inten : list float;
  peaks : list Z;
}.

(** The attributes [goscore], [score], [shifts] and [diff] are written
    and read by [calc_go_score], [pairwise] and [create_row] only. *)
Record ComplexProfile : Type := mkComplex {
  name : string;
  members : list ProteinProfile;
  pks : list (string * string);
  width : option float;
  cor : list (list float);
  pks_ali : pks_ali_t;
}.

(** [ProteinProfile.__init__], on intensities already parsed. *)
Definition new_protein (acc : string) (inten : list float) : ProteinProfile :=
  mkProtein acc inten [].

(** [ComplexProfile.__init__]. *)
Definition new_complex (name : string) : ComplexProfile :=
  mkComplex name [] [] None [] EmptyList.

Definition set_peaks (p : ProteinProfile) (pk : list Z) : ProteinProfile :=
  mkProtein (acc p) (inten p) pk.
Definition set_members (c : ComplexProfile) ms : ComplexProfile :=
  mkComplex (name c) ms (pks c) (width c) (cor c) (pks_ali c).
Definition set_pks (c : ComplexProfile) d : ComplexProfile :=
  mkComplex (name c) (members c) d (width c) (cor c) (pks_ali c).
Definition set_width (c : ComplexProfile) w : ComplexProfile :=
  mkComplex (name c) (members c) (pks c) w (cor c) (pks_ali c).
Definition set_cor (c : ComplexProfile) v : ComplexProfile :=
  mkComplex (name c) (members c) (pks c) (width c) v (pks_ali c).
Definition set_pks_ali (c : ComplexProfile) a : ComplexProfile :=
  mkComplex (name c) (members c) (pks c) (width c) (cor c) a.

(** *** ProteinProfile.calc_peaks *)

(** [st.peak_picking(inten)[0]]: the indices found by the detector, as
    the numbers it returns. *)
Variable peak_picking : list float → list Q.

Definition calc_peaks (p : ProteinProfile) : ProteinProfile :=
  let pks := peak_picking (inten p) in
  set_peaks p (int_of_number <$> pks).

(** *** ComplexProfile: validation and members *)

Definition test_complex (c : ComplexProfile) : bool :=
  if (length (members c) <? 2)%nat || (100 <? length (members c))%nat
  then false else true.

Definition add_member (c : ComplexProfile) (prot : ProteinProfile) : ComplexProfile :=
  set_members c (members c ++ [prot]).

Definition get_members (c : ComplexProfile) : list string :=
  acc <$> members c.

(** [get_peaks]: one formatted row per key of [pks]. *)
Definition get_peaks (c : ComplexProfile) : list string :=
  (λ kv : string * string, kv.1 +:+ tab +:+ name c +:+ tab +:+ kv.2) <$> pks c.

(** *** ComplexProfile.align_peaks *)

Context {sdval : Type}.
Variable np_std : list (option Z) → sdval.
Variable sd_lt : sdval → sdval → bool.

(** [st.medi] (module [stats_], not among the sources) on what [alligner]
    returned, and the builtin [round] on its result; the rounded number is
    kept as an integer. *)
Variable medi : option (list (option Z)) → outcome float.
Variable py_round : float → outcome Z.

Definition idx_missing (pk : list (list Z)) : list nat :=
  fst <$> filter (λ ij : nat * list Z, ij.2 = []) (imap pair pk).

(** The loop that fills [pks]: the text of the detected peaks, or of the
    imputed value, then the selected value. *)
Definition format_pks (ali : gmap string pyval)
    (pks : list (string * string)) (k : ProteinProfile)
  : outcome (list (string * string)) :=
  match ali !! acc k with
  | None => Raise KeyError
  | Some sel =>
      let s := match peaks k with
               | [] => py_str sel
               | _ :: _ => join "#" (pretty <$> peaks k)
               end in
      Return (dict_set pks (acc k) (s +:+ tab +:+ py_str sel))
  end.

(** The result is [None] or [True]. *)
Definition align_peaks (c : ComplexProfile) : outcome (ComplexProfile * option bool) :=
  let pk := peaks <$> members c in
  nan_members ←! lookup_all (get_members c) (idx_missing pk);
  let pres := filter (λ x, x ≠ []) pk in
  let mb_pres := filter (λ x, x ∉ nan_members) (get_members c) in
  if bool_decide (nan_members = get_members c) then
    Return (set_pks_ali c
              (Dict (py_dict (zip nan_members (replicate (length nan_members) PyNaN)))),
            None)
  else
    ali_pk ←! alligner np_std sd_lt pres;
    m ←! medi ali_pk;
    md ←! py_round m;
    let d := py_dict (zip nan_members (replicate (length nan_members) (PyInt md))) in
    match ali_pk with
    | None => Raise TypeError
    | Some ali_pk =>
        let d := py_dict (zip mb_pres (to_pyval <$> ali_pk)) ∪ d in
        pks' ←! for_each (format_pks d) (pks c) (members c);
        Return (set_pks (set_pks_ali c (Dict d)) pks', Some true)
    end.
(** *** ComplexProfile.calc_width *)

(** [st.fwhm] (module [stats_]) and [np.mean]. *)
Variable fwhm : list float → outcome float.
Variable np_mean : list float → float.

(** [self.pks_ali[k]]: the empty list cannot be indexed by a string. *)
Definition pks_ali_get (a : pks_ali_t) (k : string) : outcome pyval :=
  match a with
  | EmptyList => Raise TypeError
  | Dict d => match d !! k with Some v => Return v | None => Raise KeyError end
  end.

Definition q : Z := 5.

(** The slice of the intensities that [calc_width] hands to [fwhm]. *)
Definition prot_peak (prot : ProteinProfile) (peak : Z) : list float :=
  py_slice (inten prot) (peak - q) (peak + q).

Definition calc_width (c : ComplexProfile) : outcome ComplexProfile :=
  width ←! for_each
    (λ width prot,
       v ←! pks_ali_get (pks_ali c) (acc prot);
       peak ←! py_int v;
       prot_fwhm ←! fwhm (prot_peak prot peak);
       Return (width ++ [prot_fwhm]))
    [] (members c);
  Return (set_width c (Some (np_mean width))).

(** *** ComplexProfile.calc_corr *)

(** Arithmetic of numpy on [float], the sum that [einsum] takes over the
    first axis, and [scipy.ndimage.uniform_filter]. *)
Variables fsub fmul fdiv : float → float → float.
Variable fsqrt : float → float.
Variable fsum : list float → float.
Variables fzero fone nan : float.
Variable uniform_filter : list float → Z → outcome (list float).

(** [am[W // 2: -W // 2 + 1]]. *)
Definition valid_means (am : list float) (W : Z) : list float :=
  py_slice am (W / 2) ((- W) / 2 + 1).

(** [mask1 & mask2] at row [i], column [j]. *)
Definition mask (W : Z) (i j : nat) : bool :=
  (j <=? i)%nat && (Z.of_nat i <? Z.of_nat j + W).

(** Column [j] of [dam]: [(a[i] - amc[j]) * mask[i][j]] for every [i]. *)
Definition masked_column (a : list float) (W : Z) (j : nat) (amc_j : float)
  : list float :=
  imap (λ i a_i, fmul (fsub a_i amc_j) (if mask W i j then fone else fzero)) a.

(** What [calc_corr] computes when the two profiles, or their moving
    averages, differ in length: numpy then stretches an axis of length 1
    over the other array and raises [ValueError] for any other shapes.
    That case is left open. *)
Variable corr_other_shapes : list float → list float → Z → outcome (list float).

(** The vector that [calc_corr] appends to [cor]. *)
Definition corr_vector (a b : list float) (W : Z) : outcome (list float) :=
  am ←! uniform_filter a W;
  bm ←! uniform_filter b W;
  let amc := valid_means am W in
  let bmc := valid_means bm W in
  if bool_decide (length a = length b ∧ length amc = length bmc) then
    let r := imap (λ j '(amc_j, bmc_j),
                     let dam := masked_column a W j amc_j in
                     let dbm := masked_column b W j bmc_j in
                     let ssAs := fsum (zip_with fmul dam dam) in
                     let ssBs := fsum (zip_with fmul dbm dbm) in
                     let D := fsum (zip_with fmul dam dbm) in
                     fdiv D (fsqrt (fmul ssAs ssBs)))
                  (zip amc bmc) in
    Return (r ++ replicate 9 nan)
  else corr_other_shapes a b W.

Definition default_W : Z := 10.

Definition calc_corr (c : ComplexProfile) (pairs : ProteinProfile * ProteinProfile)
    (W : Z) : outcome ComplexProfile :=
  v ←! corr_vector (inten pairs.1) (inten pairs.2) W;
  Return (set_cor c (cor c ++ [v])).

(** *** gen_feat and the collecting loop of mp_cmplx *)

(** [calc_go_score], [pairwise] and [create_row] rest on the modules
    [parse_go] and [stats_] and on the text of floating-point numbers. *)
Variable calc_go_score : ComplexProfile → outcome ComplexProfile.
Variable pairwise : ComplexProfile → outcome ComplexProfile.
Variable create_row : ComplexProfile → outcome string.

(** [gen_feat] with the method [align_peaks] as an argument: [and] calls
    it only when [test_complex] answered [True]. *)
Definition gen_feat_with
    (align_peaks : ComplexProfile → outcome (ComplexProfile * option bool))
    (cmplx : ComplexProfile)
  : outcome (ComplexProfile * (option string * option (list string))) :=
  if test_complex cmplx then
    '(cmplx, aligned) ←! align_peaks cmplx;
    match aligned with
    | Some true =>
        cmplx ←! calc_go_score cmplx;
        cmplx ←! calc_width cmplx;
        cmplx ←! pairwise cmplx;
        row ←! create_row cmplx;
        Return (cmplx, (Some row, Some (get_peaks cmplx)))
    | _ => Return (cmplx, (None, None))
    end
  else Return (cmplx, (None, None)).

Definition gen_feat := gen_feat_with align_peaks.

(** The body of the loop of [mp_cmplx] after [gen_feat]: a row is kept
    when it is a non-empty string. *)
Definition collect (files : list string * list string)
    (r : option string * option (list string)) : list string * list string :=
  match r with
  | (Some feat_row, Some peaks) =>
      if bool_decide (feat_row = "") then files
      else (files.1 ++ [feat_row], files.2 ++ peaks)
  | _ => files
  end.

(** One turn of that loop on a complex built by [format_hash]. *)
Definition process (files : list string * list string) (cmplx : ComplexProfile)
  : outcome (list string * list string) :=
  r ←! gen_feat cmplx;
  Return (collect files r.2).
End Profiles.

Arguments mkProtein {float} acc inten peaks.
Arguments acc {float} p.
Arguments inten {float} p.
Arguments peaks {float} p.
Arguments mkComplex {float} name members pks width cor pks_ali.
Arguments name {float} c.
Arguments members {float} c.
Arguments pks {float} c.
Arguments width {float} c.
Arguments cor {float} c.
Arguments pks_ali {float} c.
Arguments new_protein {float} acc inten.
Arguments new_complex {float} name.
Arguments set_pks_ali {float} c a.
Arguments set_pks {float} c d.
Arguments set_cor {float} c v.
Arguments calc_peaks {float} peak_picking p.
Arguments test_complex {float} c.
Arguments add_member {float} c prot.
Arguments get_members {float} c.
Arguments get_peaks {float} c.
Arguments format_pks {float} ali pks k.
Arguments align_peaks {float sdval} np_std sd_lt medi py_round c.
Arguments prot_peak {float} prot peak.
Arguments calc_width {float} fwhm np_mean c.
Arguments valid_means {float} am W.
Arguments corr_vector {float} fsub fmul fdiv fsqrt fsum fzero fone nan
  uniform_filter corr_other_shapes a b W.
Arguments calc_corr {float} fsub fmul fdiv fsqrt fsum fzero fone nan
  uniform_filter corr_other_shapes c pairs W.
Arguments gen_feat_with {float} fwhm np_mean calc_go_score pairwise create_row
  align_peaks cmplx.
Arguments gen_feat {float sdval} np_std sd_lt medi py_round fwhm np_mean
  calc_go_score pairwise create_row cmplx.
Arguments process {float sdval} np_std sd_lt medi py_round fwhm np_mean
  calc_go_score pairwise create_row files cmplx.

(** ** Notions used to state the properties *)

(** Distance from [x] to every element of [l], summed. *)
Definition spread_to (x : Z) (l : list Z) : Z :=
  foldr (λ y s, Z.abs (x - y) + s) 0 l.

(** One peak of each member, in order. *)
Definition selects (sel : list Z) (ls : list (list Z)) : Prop :=
  Forall2 (λ x l, x ∈ l) sel ls.


(** [z] is a peak of every member. *)
Definition common (aoa : list (list Z)) (z : Z) : Prop :=
  Forall (λ l, z ∈ l) aoa.

(** The frontier of the search is ordered by cost. *)
Definition by_cost (e1 e2 : partial) : Prop := e1.2 ≤ e2.2.

(** What every frontier entry is: a non-empty choice for the first
    members, with its cost. *)
Definition entry_ok (aoa : list (list Z)) (e : partial) : Prop :=
  e.2 = minimize e.1 ∧ e.1 ≠ [] ∧ selects e.1 (take (length e.1) aoa).

(** The frontier is sorted by cost, holds well-formed entries only, and
    every complete selection still extends one of its entries. *)
Record frontier_inv (aoa : list (list Z)) (result : list partial) : Prop := {
  inv_sorted : StronglySorted by_cost result;
  inv_entries : Forall (entry_ok aoa) result;
  inv_covers : ∀ sel, selects sel aoa → ∃ e, e ∈ result ∧ e.1 `prefix_of` sel;
}.

(** Twelve members with two far-apart peaks each and a last member far
    from them all: every partial assignment is cheaper than any complete
    one, so the search pops partial assignments until the budget is
    spent. *)
Definition crowded : list (list Z) :=
  ((λ i : nat, [Z.of_nat i * 10; Z.of_nat i * 10 + 1]) <$> seq 0 12)
  ++ [[100000; 100001]].

(** The members with a detected peak, and those without. *)
Definition with_peaks {float} (c : ComplexProfile float)
  : list (ProteinProfile float) :=
  filter (λ p, peaks p ≠ []) (members c).
Definition without_peaks {float} (c : ComplexProfile float)
  : list (ProteinProfile float) :=
  filter (λ p, peaks p = []) (members c).

(** ** A symbolic instance of the abstract parts

    Floating-point values as terms: every operation builds the term that
    names its result, so that the functions above can be run on concrete
    complexes without fixing a rounding. *)

#[local] Unset Elimination Schemes.
Inductive sym : Type :=
  | SNum (x : Q)
  | SNaN
  | SSub (x y : sym)
  | SMul (x y : sym)
  | SDiv (x y : sym)
  | SSqrt (x : sym)
  | SSum (xs : list sym)
  | SMean (xs : list sym)
  | SFwhm (xs : list sym)
  | SFilter (xs : list sym) (W : Z) (i : nat).
#[local] Set Elimination Schemes.

(** [uniform_filter] refuses a window below 1 and keeps the shape of its
    input. *)
Definition sym_uniform_filter (a : list sym) (W : Z) : outcome (list sym) :=
  if W <? 1 then Raise ValueError else Return (imap (λ i _, SFilter a W i) a).

(** Profiles of different lengths are refused by the instance. *)
Definition sym_other_shapes (a b : list sym) (W : Z) : outcome (list sym) :=
  Raise ValueError.

Definition sym_calc_corr
  : ComplexProfile sym → ProteinProfile sym * ProteinProfile sym → Z →
    outcome (ComplexProfile sym) :=
  calc_corr SSub SMul SDiv SSqrt SSum (SNum 0) (SNum 1) SNaN sym_uniform_filter
    sym_other_shapes.

(** Modelled from the spec: [st.medi] is defined in [PCprophet/stats_.py],
    which is not among the sources; the specification calls its result the
    median of the aligned peaks.  The middle value of the sorted peaks, or
    the mean of the two middle values. *)
Definition median (xs : list Z) : outcome Q :=
  let sorted := merge_sort Z.le xs in
  let n := length sorted in
  match sorted !! (n / 2)%nat with
  | None => Raise ValueError
  | Some hi =>
      if Nat.even n then
        match sorted !! (n / 2 - 1)%nat with
        | None => Raise ValueError
        | Some lo => Return ((lo + hi) # 2)
        end
      else Return (inject_Z hi)
  end.

Definition sym_medi (ali_pk : option (list (option Z))) : outcome sym :=
  match ali_pk with
  | None => Raise TypeError
  | Some ali_pk =>
      match mapM id ali_pk with
      | None => Raise TypeError
      | Some xs => out_map SNum (median xs)
      end
  end.

(** The builtin [round] with one argument: to the nearest integer, a
    half to the even neighbour. *)
Definition round_half_even (x : Q) : Z :=
  let f := Qfloor x in
  let twice_rest := 2 * Qnum x - 2 * f * Z.pos (Qden x) in
  if twice_rest <? Z.pos (Qden x) then f
  else if Z.pos (Qden x) <? twice_rest then f + 1
  else if Z.even f then f else f + 1.

Definition sym_round (x : sym) : outcome Z :=
  match x with
  | SNum x => Return (round_half_even x)
  | SNaN => Raise ValueError
  | _ => Raise TypeError
  end.

Definition sym_fwhm (xs : list sym) : outcome sym := Return (SFwhm xs).

(** Stand-ins for the three steps that [gen_feat] takes from other
    modules: no score, no pairwise features, the name as the row. *)
Definition no_go_score (c : ComplexProfile sym) : outcome (ComplexProfile sym) :=
  Return c.
Definition no_pairwise (c : ComplexProfile sym) : outcome (ComplexProfile sym) :=
  Return c.
Definition name_row (c : ComplexProfile sym) : outcome string :=
  Return (name c).

Definition sym_align_peaks := align_peaks (float:=sym) exact_spread Z.ltb sym_medi sym_round.
Definition sym_gen_feat :=
  gen_feat exact_spread Z.ltb sym_medi sym_round sym_fwhm SMean
    no_go_score no_pairwise name_row.
Definition sym_process :=
  process exact_spread Z.ltb sym_medi sym_round sym_fwhm SMean
    no_go_score no_pairwise name_row.

(** A flat profile of [n] fractions. *)
Definition flat (n : nat) : list sym := replicate n (SNum 0).

(** Three proteins: two with detected peaks, one without. *)
Definition trio : ComplexProfile sym :=
  mkComplex "X"
    [mkProtein "A" (flat 72) [4; 9]; mkProtein "B" (flat 72) [];
     mkProtein "C" (flat 72) [5]]
    [] None [] EmptyList.

(** Two proteins without any detected peak. *)
Definition peakless : ComplexProfile sym :=
  mkComplex "Y" [mkProtein "A" (flat 72) []; mkProtein "B" (flat 72) []]
    [] None [] EmptyList.

(** One protein only. *)
Definition lonely : ComplexProfile sym :=
  mkComplex "Z" [mkProtein "A" (flat 72) [4]] [] None [] EmptyList.

(** A detector that reports the same index twice. *)
Definition twice_three (inten : list sym) : list Q := [3; 3]%Q.

(** The outcome of aligning [trio]. *)
Definition trio_aligned : ComplexProfile sym :=
  match sym_align_peaks trio with
  | Return (c, _) => c
  | _ => trio
  end.

(** A complex of 101 proteins. *)
Definition oversized : ComplexProfile sym :=
  mkComplex "W"
    ((λ i : nat, mkProtein ("P" +:+ pretty i) (flat 72) [4]) <$> seq 0 101)
    [] None [] EmptyList.

(** Fractions 0 to 71 with intensity equal to the index. *)
Definition ramp : list sym := (λ i : nat, SNum (inject_Z (Z.of_nat i))) <$> seq 0 72.

(** Two proteins whose only peak is at fraction 3. *)
Definition early : ComplexProfile sym :=
  mkComplex "E" [mkProtein "A" ramp [3]; mkProtein "B" ramp [3]]
    [] None [] EmptyList.

(** The outcome of aligning [early]. *)
Definition early_aligned : ComplexProfile sym :=
  match sym_align_peaks early with
  | Return (c, _) => c
  | _ => early
  end.

(** ** Further functions of the module *)

(** [a - b] and [abs(x)] on consensus values: NaN spreads, [None] is no
    operand. *)
Definition py_sub (a b : pyval) : outcome pyval :=
  match a, b with
  | PyNone, _ | _, PyNone => Raise TypeError
  | PyInt x, PyInt y => Return (PyInt (x - y))
  | _, _ => Return PyNaN
  end.

Definition py_abs (a : pyval) : outcome pyval :=
  match a with
  | PyInt x => Return (PyInt (Z.abs x))
  | PyNaN => Return PyNaN
  | PyNone => Raise TypeError
  end.

(** [s.split(sep)] for a separator of one character. *)
Fixpoint str_split (sep : Ascii.ascii) (s : string) : list string :=
  match s with
  | EmptyString => [EmptyString]
  | String c s' =>
      if Ascii.eqb c sep then EmptyString :: str_split sep s'
      else
        match str_split sep s' with
        | [] => [String c EmptyString]
        | w :: ws => String c w :: ws
        end
  end.

Definition tab_char : Ascii.ascii := Ascii.ascii_of_nat 9.
Definition hash_char : Ascii.ascii := Ascii.ascii_of_nat 35.
Definition comma_char : Ascii.ascii := Ascii.ascii_of_nat 44.
Definition newline_char : Ascii.ascii := Ascii.ascii_of_nat 10.

(** [re.split(r"\t+", s)]: the pieces between maximal runs of tabs. *)
Fixpoint re_split_tabs (s : string) : list string :=
  match s with
  | EmptyString => [EmptyString]
  | String c s' =>
      if Ascii.eqb c tab_char then
        EmptyString ::
          match s' with
          | String c' _ =>
              if Ascii.eqb c' tab_char then tail (re_split_tabs s')
              else re_split_tabs s'
          | EmptyString => re_split_tabs s'
          end
      else
        match re_split_tabs s' with
        | [] => [String c EmptyString]
        | w :: ws => String c w :: ws
        end
  end.

(** [line.rstrip("\n")]. *)
Fixpoint rstrip_newlines (s : string) : string :=
  match s with
  | EmptyString => EmptyString
  | String c s' =>
      match rstrip_newlines s' with
      | EmptyString =>
          if Ascii.eqb c newline_char then EmptyString else String c EmptyString
      | r => String c r
      end
  end.

(** [temp[k]]. *)
Definition dict_get (temp : gmap string string) (k : string) : outcome string :=
  match temp !! k with
  | Some v => Return v
  | None => Raise KeyError
  end.

Section Driver.
Context {float sdval : Type}.

(** [ComplexProfile.format_ids]. *)
Definition format_ids (c : ComplexProfile float) : string :=
  join "#" (get_members c).

(** [ComplexProfile.calc_shift], with the list [shifts] that it extends;
    [ids] holds two accessions. *)
Definition calc_shift (c : ComplexProfile float) (shifts : list pyval)
    (ids : string * string) : outcome (list pyval) :=
  a ←! pks_ali_get (pks_ali c) ids.1;
  b ←! pks_ali_get (pks_ali c) ids.2;
  d ←! py_sub a b;
  s ←! py_abs d;
  Return (shifts ++ [s]).

(** [float(x)] on a field of the file. *)
Variable float_of_string : string → outcome float.
Variable peak_picking : list float → list Q.

(** [format_hash] on the dictionary of one line: the fields [FT], [MB]
    and [ID] are looked up in this order, the intensities of a member are
    split and parsed when the member is admitted. *)
Definition format_hash (temp : gmap string string)
  : outcome (ComplexProfile float) :=
  ft ←! dict_get temp "FT";
  let inten := str_split hash_char ft in
  mb ←! dict_get temp "MB";
  let members := str_split hash_char mb in
  id ←! dict_get temp "ID";
  for_each
    (λ tmp '(idx, acc),
       if bool_decide (acc ∈ get_members tmp) then Return tmp
       else
         match inten !! idx with
         | None => Raise IndexError
         | Some s =>
             xs ←! for_each (λ xs x, v ←! float_of_string x; Return (xs ++ [v]))
                     [] (str_split comma_char s);
             Return (add_member tmp (calc_peaks peak_picking (new_protein acc xs)))
         end)
    (new_complex id) (imap pair members).

Variable np_std : list (option Z) → sdval.
Variable sd_lt : sdval → sdval → bool.
Variable medi : option (list (option Z)) → outcome float.
Variable py_round : float → outcome Z.
Variable fwhm : list float → outcome float.
Variable np_mean : list float → float.
Variables calc_go_score pairwise : ComplexProfile float → outcome (ComplexProfile float).
Variable create_row : ComplexProfile float → outcome string.

(** The variables that the loop of [mp_cmplx] carries from line to
    line. *)
Record mp_state : Type := mkState {
  header : list string;
  temp : gmap string string;
  files : list string * list string;
}.

(** One turn of the loop of [mp_cmplx]: a line that starts with [ID] and
    a tab renews [header] and leaves [temp] as it was; any other line
    renews [temp]. *)
Definition mp_cmplx_line (st : mp_state) (line : string) : outcome mp_state :=
  let line := rstrip_newlines line in
  let st :=
    if String.prefix ("ID" +:+ tab) line
    then mkState (re_split_tabs line) (temp st) (files st)
    else mkState (header st) (py_dict (zip (header st) (re_split_tabs line)))
                 (files st) in
  if bool_decide (temp st ≠ ∅) then
    cmplx ←! format_hash (temp st);
    files' ←! process np_std sd_lt medi py_round fwhm np_mean
                calc_go_score pairwise create_row (files st) cmplx;
    Return (mkState (header st) (temp st) files')
  else Return st.

(** [mp_cmplx] on the lines of the file. *)
Definition mp_cmplx (lines : list string) : outcome (list string * list string) :=
  st ←! for_each mp_cmplx_line (mkState [] ∅ ([], [])) lines;
  Return (files st).
End Driver.

Arguments format_ids {float} c.
Arguments calc_shift {float} c shifts ids.
Arguments format_hash {float} float_of_string peak_picking temp.

Arguments mp_cmplx_line {float sdval} float_of_string peak_picking np_std sd_lt
  medi py_round fwhm np_mean calc_go_score pairwise create_row st line.
Arguments mp_cmplx {float sdval} float_of_string peak_picking np_std sd_lt
  medi py_round fwhm np_mean calc_go_score pairwise create_row lines.

Arguments set_width {float} c w.

(** The row of [get_peaks] for a member whose selected value is [sel]:
    accession, name of the complex, the detected peaks or else the
    imputed value, and the selected value. *)
Definition annotation_row {float} (name : string) (p : ProteinProfile float)
    (sel : pyval) : string :=
  acc p +:+ tab +:+ name +:+ tab +:+
  (match peaks p with
   | [] => py_str sel
   | _ :: _ => join "#" (pretty <$> peaks p)
   end +:+ tab +:+ py_str sel).

(** ** differential.py *)

(** [extract_local_peak(row, q)] with [norm=False], the only way the module
    calls it: [SEL] is the number in the column SEL of the row (a fraction,
    counted from 1) and [INT] the text of the column INT. *)
Definition extract_local_peak (SEL : Q) (INT : string) (q : Z) : list string :=
  let pk := int_of_number (SEL - 1) in
  let tmp := str_split hash_char INT in
  if 36 <? q then tmp
  else if pk <? q then py_slice tmp 0 (q * 2)
  else if negb (Qle_bool SEL (inject_Z (72 - q)))
       then py_slice tmp (- (q * 2)) (Z.of_nat (length tmp))
  else py_slice tmp (pk - q) (pk + q).

(** The names of the columns that [extract_inte] makes for the entries of
    [extract_local_peak]: one for each entry is needed. *)
Definition extract_inte_vals (q : Z) : list string :=
  if 36 <? q then pretty <$> seqZ 1 q else pretty <$> seqZ 1 (2 * q).

(** [BayesMANOVA.yok(y)] on a vector of labels. *)
Definition yok (y : list Z) : bool :=
  let lvs := elements (list_to_set y : gset Z) in
  foldl (λ ok cl, ok && (1 <? length (filter (λ v, v = cl) y))%nat)
        ((1 <? length y)%nat && (1 <? length lvs)%nat) lvs.

(** ** Further notions used to state the properties *)

(** The accessions of a list, each at its first occurrence. *)
Fixpoint first_occurrences (l : list string) : list string :=
  match l with
  | [] => []
  | a :: l => a :: filter (λ b, b ≠ a) (first_occurrences l)
  end.

(** The entries that the search may still pop, counted from a frontier:
    every entry with all the choices that extend it by further members. *)
Definition pending (aoa : list (list Z)) (result : list partial) : nat :=
  sum_list ((λ e : partial, search_space (drop (length e.1) aoa)) <$> result).

(** An instance of [float] on the fields of a file: the text of an
    unsigned integer is read, any other text is refused. *)
Fixpoint read_digits (n : Z) (s : string) : option Z :=
  match s with
  | EmptyString => Some n
  | String c s' =>
      let d := Z.of_nat (Ascii.nat_of_ascii c) in
      if (48 <=? d) && (d <=? 57) then read_digits (10 * n + (d - 48)) s'
      else None
  end.

Definition sym_float_of_string (s : string) : outcome sym :=
  match s with
  | EmptyString => Raise ValueError
  | _ =>
      match read_digits 0 s with
      | Some n => Return (SNum (inject_Z n))
      | None => Raise ValueError
      end
  end.

Definition sym_format_hash :=
  format_hash sym_float_of_string twice_three.

Definition sym_mp_cmplx :=
  mp_cmplx sym_float_of_string twice_three exact_spread Z.ltb sym_medi sym_round
    sym_fwhm SMean no_go_score no_pairwise name_row.

(** The lines of a small file: a header, and a record of two proteins. *)
Definition header_line : string :=
  "ID" +:+ tab +:+ "MB" +:+ tab +:+ "FT" +:+ String newline_char EmptyString.
Definition record_line : string :=
  "X" +:+ tab +:+ "A#B" +:+ tab +:+ "0,5,0#0,0,5" +:+ String newline_char EmptyString.

(** The dictionary of [record_line] under [header_line], and the complex
    built from it. *)
Definition record_temp : gmap string string :=
  py_dict [("ID", "X"); ("MB", "A#B"); ("FT", "0,5,0#0,0,5")].

Definition record_complex : ComplexProfile sym :=
  match sym_format_hash record_temp with
  | Return c => c
  | _ => new_complex "X"
  end.

(** * Properties of the tier-2 search *)

Section Cost.
Implicit Types (l sol : list Z) (x y r : Z).

Lemma spread_to_nonneg x l : 0 ≤ spread_to x l.
Proof. induction l as [|y l IH]; simpl; lia. Qed.

Lemma spread_to_app x l l' : spread_to x (l ++ l') = spread_to x l + spread_to x l'.
Proof. induction l as [|y l IH]; simpl; lia. Qed.

Lemma inner_loop_spread x r l :
  foldl (λ result number2, result + Z.abs (x - number2)) r l = r + spread_to x l.
Proof.
  revert r. induction l as [|y l IH]; intros r; simpl; [lia|].
  rewrite IH. lia.
Qed.

Lemma minimize_from_shift r l : minimize_from r l = r + minimize l.
Proof.
  unfold minimize. revert r.
  induction l as [|x l IH]; intros r; simpl; [lia|].
  rewrite !inner_loop_spread, (IH (r + _)), (IH (0 + _)). lia.
Qed.

Lemma minimize_nil : minimize [] = 0.
Proof. reflexivity. Qed.

Lemma minimize_cons x l : minimize (x :: l) = spread_to x l + minimize l.
Proof.
  unfold minimize at 1. simpl.
  rewrite inner_loop_spread, minimize_from_shift. lia.
Qed.

Lemma minimize_nonneg l : 0 ≤ minimize l.
Proof.
  induction l as [|x l IH]; [done|].
  rewrite minimize_cons. pose proof (spread_to_nonneg x l). lia.
Qed.

Lemma minimize_snoc l x : minimize (l ++ [x]) = minimize l + spread_to x l.
Proof.
  induction l as [|y l IH]; [done|].
  rewrite <- app_comm_cons, !minimize_cons, IH, spread_to_app. simpl. lia.
Qed.

(** Extending a partial assignment never lowers its cost. *)
Lemma minimize_app_le l l' : minimize l ≤ minimize (l ++ l').
Proof.
  revert l. induction l' as [|x l' IH]; intros l.
  - by rewrite app_nil_r.
  - rewrite (cons_middle x l l'), app_assoc.
    etrans; [|apply IH].
    rewrite minimize_snoc. pose proof (spread_to_nonneg x l). lia.
Qed.

End Cost.

Section Frontier.
Implicit Types (result : list partial) (item e : partial).

Lemma elem_of_add_top e result item :
  e ∈ add_top result item ↔ e = item ∨ e ∈ result.
Proof.
  induction result as [|r rest IH]; simpl.
  - rewrite list_elem_of_singleton, elem_of_nil. tauto.
  - destruct (r.2 <? item.2); rewrite !elem_of_cons; [rewrite IH|]; tauto.
Qed.

Lemma add_top_not_nil result item : add_top result item ≠ [].
Proof. destruct result as [|r rest]; simpl; [done|]. by destruct (r.2 <? item.2). Qed.

Lemma add_top_sorted result item :
  StronglySorted by_cost result → StronglySorted by_cost (add_top result item).
Proof.
  induction 1 as [|r rest Hs IH Hr]; simpl.
  - repeat constructor.
  - destruct (Z.ltb_spec r.2 item.2) as [Hlt|Hge].
    + constructor; [done|].
      apply Forall_forall. intros e [->|He]%elem_of_add_top.
      * unfold by_cost. lia.
      * by eapply Forall_forall in Hr.
    + constructor; [by constructor|].
      constructor; [done|].
      eapply Forall_impl; [exact Hr|]. unfold by_cost. intros; lia.
Qed.

Lemma elem_of_expand e sol peaks result :
  e ∈ expand sol peaks result ↔
  e ∈ result ∨ ∃ peak, peak ∈ peaks ∧ e = (sol ++ [peak], minimize (sol ++ [peak])).
Proof.
  unfold expand. revert result.
  induction peaks as [|p peaks IH]; intros result; simpl.
  - split; [by left|]. intros [?|(peak & []%elem_of_nil & _)]. done.
  - rewrite IH, elem_of_add_top. split.
    + intros [[->|?]|(peak & ? & ->)]; [right|by left|right].
      * exists p. split; [apply list_elem_of_here|done].
      * exists peak. split; [by apply list_elem_of_further|done].
    + intros [?|(peak & [->|?]%elem_of_cons & ->)].
      * left. by right.
      * left. by left.
      * right. by exists peak.
Qed.


Lemma expand_not_nil sol peaks result :
  peaks ≠ [] ∨ result ≠ [] → expand sol peaks result ≠ [].
Proof.
  unfold expand. revert result.
  induction peaks as [|p peaks IH]; intros result H; simpl.
  - by destruct H.
  - apply IH. right. apply add_top_not_nil.
Qed.
End Frontier.


Section Search.
Variable aoa : list (list Z).

Lemma entry_ok_length e : entry_ok aoa e → (0 < length e.1 ≤ length aoa)%nat.
Proof.
  destruct e as [sol c]. intros (_ & Hne & Hsel). simpl in *.
  apply Forall2_length in Hsel. rewrite length_take in Hsel.
  destruct sol; [done|]. rewrite length_cons in *. lia.
Qed.

Lemma entry_ok_extend sol c peaks peak :
  entry_ok aoa (sol, c) → aoa !! length sol = Some peaks → peak ∈ peaks →
  entry_ok aoa (sol ++ [peak], minimize (sol ++ [peak])).
Proof.
  intros (_ & _ & Hsel) Hpeaks Hpeak. simpl in *.
  split; [done|]. split; [by destruct sol|]. simpl.
  rewrite length_app. simpl. rewrite Nat.add_1_r.
  erewrite take_S_r by done.
  apply Forall2_app; [done|]. by repeat constructor.
Qed.

Lemma entries_ok_expand sol peaks result :
  entry_ok aoa sol → aoa !! length sol.1 = Some peaks → Forall (entry_ok aoa) result →
  Forall (entry_ok aoa) (expand sol.1 peaks result).
Proof.
  intros Hsol Hpeaks Hres. apply Forall_forall.
  intros e [He|(peak & Hpeak & ->)]%elem_of_expand.
  - by eapply Forall_forall in Hres.
  - destruct sol as [s c]. by eapply entry_ok_extend.
Qed.

Lemma frontier_inv_init first rest :
  aoa = first :: rest → frontier_inv aoa ((λ x, ([x], 0)) <$> first).
Proof.
  intros Haoa. split.
  - induction first as [|x first IH] in |- *; simpl; constructor; [done|].
    apply Forall_fmap, Forall_true. intros y. by unfold by_cost.
  - apply Forall_fmap, Forall_forall. intros x Hx. unfold entry_ok. simpl.
    split; [done|]. split; [done|]. rewrite Haoa. simpl.
    constructor; [done|]. rewrite take_0. constructor.
  - intros sel Hsel. rewrite Haoa in Hsel.
    inversion Hsel as [|x ? sel' ? Hx Hsel']; subst.
    exists ([x], 0). split.
    + apply list_elem_of_fmap. by exists x.
    + by exists sel'.
Qed.




(** With every member offering a peak the search neither pops from an
    empty frontier nor indexes past the last member, and it is over
    when [trial] meets the budget at the latest. *)
Lemma shortest_path_loop_returns fuel max_trial result trial :
  Forall (λ l, l ≠ []) aoa →
  result ≠ [] → Forall (entry_ok aoa) result →
  trial ≤ max_trial → (Z.to_nat (max_trial - trial) < fuel)%nat →
  ∃ t r,
    shortest_path_loop fuel aoa (length aoa) max_trial result trial
      = Return (t, r) ∧
    trial ≤ t ≤ max_trial ∧
    match r with
    | Some sol => selects sol aoa
    | None => t = max_trial
    end.
Proof.
  intros Haoa. revert result trial.
  induction fuel as [|fuel IH]; intros result trial Hne He Htrial Hfuel;
    simpl; [lia|].
  destruct (Z.eqb_spec trial max_trial) as [->|Hneq].
  { exists max_trial, None. split; [done|]. split; [lia|done]. }
  destruct result as [|e result]; [done|].
  apply Forall_cons in He as [Hsol He].
  destruct (Nat.eqb_spec (length e.1) (length aoa)) as [Hlen|Hlen].
  { exists (trial + 1), (Some e.1). split; [done|]. split; [lia|].
    destruct Hsol as (_ & _ & Hsel). by rewrite Hlen, firstn_all in Hsel. }
  pose proof (entry_ok_length _ Hsol) as Hl.
  destruct (lookup_lt_is_Some_2 aoa (length e.1)) as [peaks Hpeaks]; [lia|].
  rewrite Hpeaks.
  destruct (IH (expand e.1 peaks result) (trial + 1)) as (t & r & Hrun & Ht & Hr).
  - apply expand_not_nil. left.
    eapply Forall_forall in Haoa; [exact Haoa|]. by eapply list_elem_of_lookup_2.
  - by apply entries_ok_expand.
  - lia.
  - lia.
  - exists t, r. split; [done|]. split; [lia|done].
Qed.
End Search.

(** * Properties of the aligner *)

Lemma elem_of_foldl_intersection (z : Z) (s : gset Z) (ss : list (gset Z)) :
  z ∈ foldl (∩) s ss ↔ z ∈ s ∧ Forall (λ s', z ∈ s') ss.
Proof.
  revert s. induction ss as [|s' ss IH]; intros s; simpl.
  - split; [by split|by intros [? _]].
  - rewrite IH, elem_of_intersection, Forall_cons. tauto.
Qed.

Lemma set_intersection_spec (aoa : list (list Z)) :
  aoa ≠ [] →
  ∃ candidate : gset Z,
    set_intersection (list_to_set <$> aoa) = Return candidate ∧
    ∀ z, z ∈ candidate ↔ common aoa z.
Proof.
  destruct aoa as [|l ls]; [done|]. intros _. simpl.
  eexists. split; [done|]. intros z.
  rewrite elem_of_foldl_intersection, elem_of_list_to_set, Forall_fmap.
  unfold common. rewrite Forall_cons.
  apply and_iff_compat_l, Forall_iff. intros l'. simpl.
  by rewrite elem_of_list_to_set.
Qed.

Lemma foldl_max_spec (x : Z) (xs : list Z) :
  (foldl Z.max x xs = x ∨ foldl Z.max x xs ∈ xs) ∧
  x ≤ foldl Z.max x xs ∧ Forall (λ y, y ≤ foldl Z.max x xs) xs.
Proof.
  revert x. induction xs as [|y xs IH]; intros x; simpl.
  - split; [by left|]. split; [lia|constructor].
  - destruct (IH (Z.max x y)) as (Hin & Hle & Hall).
    split; [|split; [lia|constructor; [lia|done]]].
    destruct Hin as [Heq|Hin]; [|right; by right].
    rewrite Heq. destruct (Z.max_spec x y) as [[_ ->]|[_ ->]]; [right; by left|by left].
Qed.

Lemma py_max_spec (xs : list Z) :
  xs ≠ [] →
  ∃ m, py_max xs = Return m ∧ m ∈ xs ∧ Forall (λ y, y ≤ m) xs.
Proof.
  destruct xs as [|x xs]; [done|]. intros _. simpl.
  destruct (foldl_max_spec x xs) as (Hin & Hle & Hall).
  eexists. split; [done|]. split.
  - destruct Hin as [->|Hin]; [by left|by right].
  - by constructor.
Qed.

Lemma no_empty_member (aoa : list (list Z)) :
  Forall (λ l, l ≠ []) aoa → existsb (λ x, bool_decide (x = [])) aoa = false.
Proof.
  induction 1 as [|l ls Hl _ IH]; simpl; [done|].
  by rewrite bool_decide_eq_false_2.
Qed.

Lemma empty_member (aoa : list (list Z)) :
  ¬ Forall (λ l, l ≠ []) aoa → existsb (λ x, bool_decide (x = [])) aoa = true.
Proof.
  induction aoa as [|l ls IH]; simpl; intros Hn.
  - destruct Hn. constructor.
  - destruct (decide (l = [])) as [->|Hl]; [done|].
    rewrite bool_decide_eq_false_2 by done. simpl.
    apply IH. intros Hls. apply Hn. by constructor.
Qed.

(** A member without any peak: the aligner answers [None] at once. *)
Lemma alligner_empty_member tier2 tier3 (aoa : list (list Z)) :
  ¬ Forall (λ l, l ≠ []) aoa → alligner_with tier2 tier3 aoa = Return None.
Proof. intros Hn. unfold alligner_with. by rewrite empty_member. Qed.

(** What tier 1 returns when some peak is shared by all members. *)
Lemma tier1_spec tier2 tier3 (aoa : list (list Z)) :
  aoa ≠ [] → (∃ z, common aoa z) →
  ∃ m, alligner_with tier2 tier3 aoa
         = Return (Some (replicate (length aoa) (Some m))) ∧
       common aoa m ∧ ∀ z, common aoa z → z ≤ m.
Proof.
  intros Hne [z0 Hz0]. unfold alligner_with.
  rewrite no_empty_member.
  2:{ eapply Forall_impl; [exact Hz0|]. intros l Hl ->. by apply elem_of_nil in Hl. }
  destruct (set_intersection_spec aoa Hne) as (candidate & -> & Hc). simpl.
  assert (candidate ≠ ∅) as Hcne.
  { intros ->. apply (not_elem_of_empty (C:=gset Z) z0). by apply Hc. }
  rewrite bool_decide_eq_true_2 by done.
  destruct (py_max_spec (elements candidate)) as (m & -> & Hm & Hmax).
  { by rewrite elements_empty_iff, leibniz_equiv_iff. }
  exists m. split; [done|]. split.
  - by apply Hc, elem_of_elements.
  - intros z Hz. eapply Forall_forall in Hmax; [exact Hmax|].
    by apply elem_of_elements, Hc.
Qed.

(** What the aligner does when no peak is shared by all members. *)
Lemma alligner_with_disjoint tier2 tier3 (aoa : list (list Z)) :
  aoa ≠ [] → Forall (λ l, l ≠ []) aoa → (∀ z, ¬ common aoa z) →
  alligner_with tier2 tier3 aoa =
    pks ←! tier2 aoa;
    match pks with
    | Some (peak :: pks) => Return (Some (Some <$> peak :: pks))
    | _ => tier3 aoa
    end.
Proof.
  intros Hne Hall Hdis. unfold alligner_with.
  rewrite no_empty_member by done.
  destruct (set_intersection_spec aoa Hne) as (candidate & -> & Hc). simpl.
  assert (candidate = ∅) as ->.
  { apply leibniz_equiv, elem_of_equiv_empty. intros z Hz. by apply (Hdis z), Hc. }
  rewrite bool_decide_eq_false_2; [done|]. intros H. by apply H.
Qed.

Lemma shortest_path_run_returns (aoa : list (list Z)) (max_trial : Z) :
  aoa ≠ [] → Forall (λ l, l ≠ []) aoa → 1 ≤ max_trial →
  ∃ t r, shortest_path_run aoa max_trial = Return (t, r) ∧
         1 ≤ t ≤ max_trial ∧
         match r with
         | Some sol => selects sol aoa
         | None => t = max_trial
         end.
Proof.
  intros Hne Hall Hmax. unfold shortest_path_run.
  destruct aoa as [|first rest] eqn:Haoa; [done|]. rewrite <- Haoa in *.
  assert (first ≠ []) as Hfirst.
  { rewrite Haoa in Hall. by apply Forall_cons in Hall as [? _]. }
  destruct (Z.ltb_spec max_trial 1) as [?|_]; [lia|]. cbv zeta.
  apply shortest_path_loop_returns; [done| | |lia|lia].
  - by destruct first.
  - by eapply frontier_inv_init.
Qed.


Lemma common_dec (aoa : list (list Z)) :
  aoa ≠ [] → (∃ z, common aoa z) ∨ (∀ z, ¬ common aoa z).
Proof.
  intros Hne. destruct (set_intersection_spec aoa Hne) as (candidate & _ & Hc).
  destruct (decide (candidate = ∅)) as [->|Hcne].
  - right. intros z Hz%Hc. by apply not_elem_of_empty in Hz.
  - left. apply set_choose_L in Hcne as [z Hz]. exists z. by apply Hc.
Qed.

Section MinSdFacts.
Context {sdval : Type}.
Variable np_std : list (option Z) → sdval.
Variable sd_lt : sdval → sdval → bool.

Lemma min_index_from_lt cur cur_i i (sd : list sdval) :
  (cur_i < i)%nat → (min_index_from sd_lt cur cur_i i sd < i + length sd)%nat.
Proof.
  revert cur cur_i i. induction sd as [|x sd IH]; intros cur cur_i i Hi; simpl.
  - lia.
  - destruct (sd_lt x cur).
    + pose proof (IH x i (S i)). lia.
    + pose proof (IH cur cur_i (S i)). lia.
Qed.

Lemma min_index_lt (sd : list sdval) j :
  min_index sd_lt sd = Some j → (j < length sd)%nat.
Proof.
  destruct sd as [|x sd]; simpl; [done|]. intros [= <-].
  pose proof (min_index_from_lt x 0%nat 1%nat sd). lia.
Qed.

Lemma min_index_is_Some (sd : list sdval) :
  sd ≠ [] → is_Some (min_index sd_lt sd).
Proof. destruct sd; [done|]. by eexists. Qed.

Lemma foldl_max_len_spec (x : nat) (xs : list nat) :
  (x ≤ foldl Nat.max x xs)%nat ∧ Forall (λ y, (y ≤ foldl Nat.max x xs)%nat) xs.
Proof.
  revert x. induction xs as [|y xs IH]; intros x; simpl.
  - split; [lia|constructor].
  - destruct (IH (Nat.max x y)) as [Hle Hall].
    split; [lia|]. constructor; [lia|done].
Qed.

Lemma py_max_len_spec (xs : list nat) :
  xs ≠ [] → ∃ ln, py_max_len xs = Return ln ∧ Forall (λ y, (y ≤ ln)%nat) xs.
Proof.
  destruct xs as [|x xs]; [done|]. intros _. simpl.
  destruct (foldl_max_len_spec x xs) as [Hle Hall].
  eexists. split; [done|]. by constructor.
Qed.

Lemma pad_row_length ln (l : list Z) :
  l ≠ [] → (length l ≤ ln)%nat → length (pad_row ln l) = ln.
Proof.
  intros Hl Hln. unfold pad_row.
  destruct (last l) as [x|] eqn:Hlast.
  - rewrite length_app, length_replicate. lia.
  - by apply last_None in Hlast.
Qed.

Lemma pad_row_elem_of ln (l : list Z) z : z ∈ pad_row ln l → z ∈ l.
Proof.
  unfold pad_row. destruct (last l) as [x|] eqn:Hlast; [|done].
  intros [?|[-> _]%elem_of_replicate]%elem_of_app; [done|].
  rewrite last_lookup in Hlast. by eapply list_elem_of_lookup_2.
Qed.

Lemma columns_length (rows : list (list Z)) :
  length (columns rows) = foldr Nat.max 0%nat (length <$> rows).
Proof. unfold columns. by rewrite length_fmap, length_seq. Qed.

Lemma max_len_uniform ln (rows : list (list Z)) :
  rows ≠ [] → Forall (λ row, length row = ln) rows →
  foldr Nat.max 0%nat (length <$> rows) = ln.
Proof.
  intros Hne Hall. induction Hall as [|row rows Hrow Hall IH]; [done|].
  simpl. destruct rows as [|row' rows]; simpl in *; [lia|].
  rewrite IH by done. lia.
Qed.

(** The padded frame of a complex whose members all have a peak. *)
Lemma padded_rows ln (aoa : list (list Z)) :
  Forall (λ l, l ≠ []) aoa → Forall (λ y, (y ≤ ln)%nat) (length <$> aoa) →
  Forall (λ l, length (pad_row ln (take ln l)) = ln ∧
               ∀ z, z ∈ pad_row ln (take ln l) → z ∈ l) aoa.
Proof.
  intros Hne Hlen. apply Forall_fmap in Hlen.
  assert (Forall (λ l, l ≠ [] ∧ (length l ≤ ln)%nat) aoa) as Hboth
    by by apply Forall_and.
  eapply Forall_impl; [exact Hboth|].
  intros l [Hl Hle]. simpl in Hle. rewrite take_ge by done.
  split; [by apply pad_row_length|]. intros z. apply pad_row_elem_of.
Qed.

(** Tier 3 picks, for every member, one of that member's own peaks. *)
Lemma min_sd_selects (aoa : list (list Z)) r :
  Forall (λ l, l ≠ []) aoa →
  min_sd np_std sd_lt aoa = Return (Some r) →
  Forall2 (λ v l, ∃ z, v = Some z ∧ z ∈ l) r aoa.
Proof.
  intros Hne. unfold min_sd.
  destruct (decide (aoa = [])) as [->|Haoa]; [done|].
  destruct (py_max_len_spec (length <$> aoa)) as (ln & -> & Hln).
  { by destruct aoa. }
  simpl. pose proof (padded_rows ln aoa Hne Hln) as Hrows.
  destruct (min_index _ _) as [j|] eqn:Hj; [|done]. intros [= <-].
  apply min_index_lt in Hj.
  rewrite length_fmap, columns_length, (max_len_uniform ln) in Hj.
  2:{ by destruct aoa. }
  2:{ rewrite <- list_fmap_compose. apply Forall_fmap.
      eapply Forall_impl; [exact Hrows|]. by intros l [? _]. }
  rewrite <- !list_fmap_compose. apply Forall2_fmap_l, Forall_Forall2_diag.
  eapply Forall_impl; [exact Hrows|]. intros l [Hlen Hin]. simpl.
  destruct (lookup_lt_is_Some_2 (pad_row ln (take ln l)) j) as [z Hz]; [lia|].
  exists z. split; [done|]. eapply Hin, list_elem_of_lookup_2, Hz.
Qed.

Lemma min_sd_returns (aoa : list (list Z)) :
  aoa ≠ [] → Forall (λ l, l ≠ []) aoa →
  ∃ r, min_sd np_std sd_lt aoa = Return (Some r).
Proof.
  intros Haoa Hne. unfold min_sd.
  destruct (py_max_len_spec (length <$> aoa)) as (ln & -> & Hln).
  { by destruct aoa. }
  simpl. pose proof (padded_rows ln aoa Hne Hln) as Hrows.
  destruct (min_index_is_Some (np_std <$> columns (pad_row ln <$> (take ln <$> aoa))))
    as [j ->]; [|by eexists].
  intros Hnil. apply (f_equal length) in Hnil.
  rewrite length_fmap, columns_length, (max_len_uniform ln) in Hnil.
  - destruct aoa as [|l ls]; [done|].
    apply Forall_cons in Hne as [Hl _]. apply Forall_cons in Hln as [Hle _].
    simpl in *. subst ln. destruct l; [done|]. simpl in Hle. lia.
  - by destruct aoa.
  - rewrite <- list_fmap_compose. apply Forall_fmap.
    eapply Forall_impl; [exact Hrows|]. by intros l [? _].
Qed.

(** The aligner returns an assignment whenever every member has a
    peak, whichever tier answers. *)
Lemma alligner_returns (aoa : list (list Z)) :
  aoa ≠ [] → Forall (λ l, l ≠ []) aoa →
  ∃ r, alligner np_std sd_lt aoa = Return (Some r).
Proof.
  intros Haoa Hne. unfold alligner.
  destruct (common_dec aoa Haoa) as [Hc|Hc].
  - destruct (tier1_spec (λ aoa, shortest_path aoa default_max_trial)
                (min_sd np_std sd_lt) aoa Haoa Hc) as (m & -> & _).
    by eexists.
  - rewrite alligner_with_disjoint by done.
    unfold shortest_path.
    destruct (shortest_path_run_returns aoa default_max_trial)
      as (t & r & -> & _ & Hr); [done..|].
    simpl. destruct r as [[|peak pks]|]; [by apply min_sd_returns|by eexists|].
    by apply min_sd_returns.
Qed.
End MinSdFacts.

Lemma replicate_common (aoa : list (list Z)) (m : Z) n :
  common aoa m → n = length aoa →
  Forall2 (λ v l, ∃ z, v = Some z ∧ z ∈ l) (replicate n (Some m)) aoa.
Proof.
  intros Hm ->. induction Hm as [|l ls Hl _ IH]; simpl; constructor; [|done].
  by exists m.
Qed.


(** Each tier hands every member one of its own peaks. *)
Lemma alligner_result_selects {sdval}
    (np_std : list (option Z) → sdval) (sd_lt : sdval → sdval → bool)
    (aoa : list (list Z)) (r : list (option Z)) :
  Forall (λ l, l ≠ []) aoa →
  alligner np_std sd_lt aoa = Return (Some r) →
  length r = length aoa ∧
  Forall2 (λ v l, ∃ z, v = Some z ∧ z ∈ l) r aoa.
Proof.
  intros Hne Hal.
  assert (Forall2 (λ v l, ∃ z : Z, v = Some z ∧ z ∈ l) r aoa) as H;
    [|split; [by eapply Forall2_length|done]].
  destruct (decide (aoa = [])) as [->|Haoa]; [done|].
  unfold alligner in Hal.
  destruct (common_dec aoa Haoa) as [Hc|Hc].
  - destruct (tier1_spec (λ aoa, shortest_path aoa default_max_trial)
                (min_sd np_std sd_lt) aoa Haoa Hc) as (m & Heq & Hm & _).
    rewrite Heq in Hal. injection Hal as <-. by apply replicate_common.
  - rewrite alligner_with_disjoint in Hal by done.
    unfold shortest_path in Hal.
    destruct (shortest_path_run_returns aoa default_max_trial)
      as (t & r' & Hrun & _ & Hr); [done..|].
    rewrite Hrun in Hal. simpl in Hal.
    destruct r' as [[|peak pks]|]; [by eapply min_sd_selects| |by eapply min_sd_selects].
    injection Hal as <-.
    change (Forall2 (λ v l, ∃ z : Z, v = Some z ∧ z ∈ l) (Some <$> peak :: pks) aoa).
    apply Forall2_fmap_l.
    eapply Forall2_impl; [exact Hr|]. intros z l Hz. by exists z.
Qed.

(** * Properties of the complex profile *)

Section Dictionaries.
Context {V : Type}.
Implicit Types (pairs : list (string * V)) (ks : list string) (vs : list V).

Lemma py_dict_snoc pairs k v :
  py_dict (pairs ++ [(k, v)]) = <[k := v]> (py_dict pairs).
Proof. unfold py_dict. by rewrite foldl_app. Qed.

(** Reading the pairs from the last one back gives the same map. *)
Lemma py_dict_reverse pairs : py_dict pairs = list_to_map (reverse pairs).
Proof.
  induction pairs as [|[k v] pairs IH] using rev_ind; [done|].
  by rewrite py_dict_snoc, reverse_snoc, IH.
Qed.

Lemma elem_of_fst_zip ks vs k : k ∈ (zip ks vs).*1 → k ∈ ks.
Proof.
  intros ([k' v] & -> & Hin)%list_elem_of_fmap.
  apply list_elem_of_lookup in Hin as [i Hi].
  apply lookup_zip_Some in Hi as [Hk _]. by eapply list_elem_of_lookup_2.
Qed.

Lemma NoDup_fst_zip ks vs : NoDup ks → NoDup (zip ks vs).*1.
Proof.
  intros Hnd. revert vs. induction Hnd as [|k ks Hk Hnd IH]; intros vs.
  - constructor.
  - destruct vs as [|v vs]; simpl; [constructor|].
    constructor; [|by apply IH]. intros Hin. by apply Hk, (elem_of_fst_zip _ vs).
Qed.

Lemma py_dict_zip_lookup ks vs i k (v : V) :
  NoDup ks → ks !! i = Some k → vs !! i = Some v →
  py_dict (zip ks vs) !! k = Some v.
Proof.
  intros Hnd Hk Hv. rewrite py_dict_reverse.
  apply elem_of_list_to_map.
  - rewrite fmap_reverse, reverse_Permutation. by apply NoDup_fst_zip.
  - apply elem_of_reverse. eapply list_elem_of_lookup_2.
    by apply lookup_zip_Some.
Qed.

Lemma py_dict_zip_lookup_None ks vs k :
  k ∉ ks → py_dict (zip ks vs) !! k = None.
Proof.
  intros Hk. rewrite py_dict_reverse. apply not_elem_of_list_to_map.
  rewrite fmap_reverse, elem_of_reverse. intros Hin.
  by apply Hk, (elem_of_fst_zip _ vs).
Qed.

Lemma py_dict_zip_replicate ks (v : V) k :
  k ∈ ks → py_dict (zip ks (replicate (length ks) v)) !! k = Some v.
Proof.
  intros Hk. rewrite py_dict_reverse.
  destruct (list_to_map (reverse (zip ks (replicate (length ks) v))) !! k)
    as [v'|] eqn:Hl.
  - apply elem_of_list_to_map_2 in Hl. rewrite elem_of_reverse in Hl.
    apply list_elem_of_lookup in Hl as [i Hi].
    apply lookup_zip_Some in Hi as [_ Hv].
    apply lookup_replicate in Hv as [-> _]. done.
  - apply not_elem_of_list_to_map in Hl. destruct Hl.
    rewrite fmap_reverse, elem_of_reverse, fst_zip; [done|].
    by rewrite length_replicate.
Qed.

Lemma dom_py_dict_zip ks vs :
  (length ks ≤ length vs)%nat →
  dom (py_dict (zip ks vs)) = (list_to_set ks : gset string).
Proof.
  intros Hlen. rewrite py_dict_reverse, dom_list_to_map_L.
  rewrite fmap_reverse, fst_zip by done.
  apply set_eq. intros k. by rewrite !elem_of_list_to_set, elem_of_reverse.
Qed.
End Dictionaries.

Section Filters.
Context {A B : Type}.

Lemma filter_fmap_comm (f : A → B) (P : B → Prop) (Q : A → Prop)
    `{∀ y, Decision (P y)} `{∀ x, Decision (Q x)} (l : list A) :
  (∀ x, x ∈ l → Q x ↔ P (f x)) →
  filter P (f <$> l) = f <$> filter Q l.
Proof.
  induction l as [|x l IH]; intros Hpq; [done|].
  rewrite fmap_cons, !filter_cons, IH by (intros y Hy; apply Hpq; by right).
  destruct (Hpq x) as [Hq Hp]; [by left|].
  destruct (decide (P (f x))), (decide (Q x)); tauto || done.
Qed.

Lemma filter_ext_elem (P Q : A → Prop) `{∀ x, Decision (P x)}
    `{∀ x, Decision (Q x)} (l : list A) :
  (∀ x, x ∈ l → P x ↔ Q x) → filter P l = filter Q l.
Proof.
  induction l as [|x l IH]; intros Hpq; [done|].
  rewrite !filter_cons, IH by (intros y Hy; apply Hpq; by right).
  destruct (Hpq x) as [Hp Hq]; [by left|].
  destruct (decide (P x)), (decide (Q x)); tauto.
Qed.

Lemma filter_all (P : A → Prop) `{∀ x, Decision (P x)} (l : list A) :
  Forall P l → filter P l = l.
Proof.
  induction 1 as [|x l Hx _ IH]; [done|].
  by rewrite filter_cons, decide_True, IH.
Qed.

Lemma filter_full_length (P : A → Prop) `{∀ x, Decision (P x)} (l : list A) :
  length (filter P l) = length l → Forall P l.
Proof.
  induction l as [|x l IH]; [constructor|].
  rewrite filter_cons. pose proof (length_filter P l).
  destruct (decide (P x)); simpl; intros Hlen; [|lia].
  constructor; [done|]. apply IH. lia.
Qed.

Lemma NoDup_fmap_elem_inj (f : A → B) (l : list A) x y :
  NoDup (f <$> l) → x ∈ l → y ∈ l → f x = f y → x = y.
Proof.
  intros Hnd [i Hi]%list_elem_of_lookup [j Hj]%list_elem_of_lookup Hf.
  assert (i = j) as ->; [|congruence].
  eapply NoDup_lookup; [exact Hnd| |].
  - by rewrite list_lookup_fmap, Hi.
  - by rewrite list_lookup_fmap, Hj, Hf.
Qed.
End Filters.

Section Alignment.
Context {float sdval : Type}.
Variable np_std : list (option Z) → sdval.
Variable sd_lt : sdval → sdval → bool.
Variable medi : option (list (option Z)) → outcome float.
Variable py_round : float → outcome Z.
Implicit Types (p : ProteinProfile float) (ms : list (ProteinProfile float))
  (c : ComplexProfile float).

Lemma nan_members_from ms pre :
  lookup_all (acc <$> pre ++ ms)
    (fst <$> filter (λ ij : nat * list Z, ij.2 = [])
               (imap (λ i x, ((length pre + i)%nat, x)) (peaks <$> ms)))
  = Return (acc <$> filter (λ p, peaks p = []) ms).
Proof.
  revert pre. induction ms as [|p ms IH]; intros pre; [done|].
  rewrite fmap_cons, imap_cons, !filter_cons. simpl.
  assert (imap ((λ i x, ((length pre + i)%nat, x)) ∘ S) (peaks <$> ms)
          = imap (λ i x, ((length (pre ++ [p]) + i)%nat, x)) (peaks <$> ms)) as ->.
  { apply imap_ext. intros i x _. simpl. rewrite length_app. simpl.
    f_equal. lia. }
  specialize (IH (pre ++ [p])). rewrite <- app_assoc in IH. simpl in IH.
  destruct (decide (peaks p = [])) as [Hp|Hp]; [|done].
  rewrite !fmap_cons. cbn [lookup_all fst].
  rewrite IH, list_lookup_fmap, Nat.add_0_r, list_lookup_middle by done.
  done.
Qed.

(** [nan_members] are the accessions of the members without a peak. *)
Lemma nan_members_spec ms :
  lookup_all (acc <$> ms) (idx_missing (peaks <$> ms))
  = Return (acc <$> filter (λ p, peaks p = []) ms).
Proof. apply (nan_members_from ms []). Qed.

(** [pres] are the peak lists of the members with a peak. *)
Lemma pres_spec ms :
  filter (λ x : list Z, x ≠ []) (peaks <$> ms)
  = peaks <$> filter (λ p, peaks p ≠ []) ms.
Proof. by apply filter_fmap_comm. Qed.

(** With distinct accessions [mb_pres] are their accessions. *)
Lemma mb_pres_spec ms :
  NoDup (acc <$> ms) →
  filter (λ x, x ∉ acc <$> filter (λ p, peaks p = []) ms) (acc <$> ms)
  = acc <$> filter (λ p, peaks p ≠ []) ms.
Proof.
  intros Hnd. apply filter_fmap_comm. intros p Hp. split.
  - intros Hpk (p' & Hacc & [Hpk' Hp']%list_elem_of_filter)%list_elem_of_fmap.
    assert (p = p') as <- by by eapply NoDup_fmap_elem_inj.
    done.
  - intros Hnot Hpk. apply Hnot, list_elem_of_fmap. exists p. split; [done|].
    by apply list_elem_of_filter.
Qed.

Lemma all_missing_iff ms :
  acc <$> filter (λ p, peaks p = []) ms = acc <$> ms ↔
  Forall (λ p, peaks p = []) ms.
Proof.
  split.
  - intros Heq. apply (f_equal length) in Heq. rewrite !length_fmap in Heq.
    by eapply filter_full_length.
  - intros Hall. by rewrite filter_all.
Qed.
End Alignment.

Section AlignPeaks.
Context {float sdval : Type}.
Variable np_std : list (option Z) → sdval.
Variable sd_lt : sdval → sdval → bool.
Variable medi : option (list (option Z)) → outcome float.
Variable py_round : float → outcome Z.
Implicit Types (p : ProteinProfile float) (ms : list (ProteinProfile float))
  (c : ComplexProfile float).

(** A complex without any detected peak is marked: every member gets NaN
    and the result is [None]. *)
Lemma align_peaks_all_missing c :
  Forall (λ p, peaks p = []) (members c) →
  align_peaks np_std sd_lt medi py_round c
  = Return (set_pks_ali c
              (Dict (py_dict (zip (get_members c)
                                  (replicate (length (get_members c)) PyNaN)))),
            None).
Proof.
  intros Hall. unfold align_peaks, get_members.
  rewrite nan_members_spec. simpl.
  rewrite filter_all by done.
  by rewrite bool_decide_eq_true_2.
Qed.

(** What a successful alignment did. *)
Lemma align_peaks_true_inv c c' :
  NoDup (get_members c) →
  align_peaks np_std sd_lt medi py_round c = Return (c', Some true) →
  ∃ (selected : list Z) (m : float) (md : Z),
    alligner np_std sd_lt (peaks <$> with_peaks c)
      = Return (Some (Some <$> selected)) ∧
    Forall2 (λ z p, z ∈ peaks p) selected (with_peaks c) ∧
    medi (Some (Some <$> selected)) = Return m ∧
    py_round m = Return md ∧
    members c' = members c ∧
    pks_ali c' =
      Dict (py_dict (zip (acc <$> with_peaks c) (PyInt <$> selected))
            ∪ py_dict (zip (acc <$> without_peaks c)
                           (replicate (length (acc <$> without_peaks c))
                                      (PyInt md)))).
Proof.
  intros Hnd. unfold align_peaks, get_members in *.
  rewrite nan_members_spec. simpl.
  rewrite pres_spec, mb_pres_spec by done.
  fold (with_peaks c) (without_peaks c).
  case_bool_decide as Hmiss; [done|].
  destruct (alligner _ _ _) as [ali_pk| |] eqn:Hal; [|done..]. simpl.
  destruct (medi ali_pk) as [m| |] eqn:Hm; [|done..]. simpl.
  destruct (py_round m) as [md| |] eqn:Hmd; [|done..]. simpl.
  destruct ali_pk as [ali_pk|]; [|done].
  destruct (for_each _ _ _) as [pks'| |]; [|done..]. simpl.
  intros [= <-].
  assert (Forall (λ l : list Z, l ≠ []) (peaks <$> with_peaks c)) as Hne.
  { apply Forall_fmap, Forall_forall. by intros p [? _]%list_elem_of_filter. }
  destruct (alligner_result_selects _ _ _ _ Hne Hal) as [_ Hsel].
  assert (∃ selected, ali_pk = Some <$> selected ∧
            Forall2 (λ z p, z ∈ peaks p) selected (with_peaks c))
    as (selected & -> & Hown).
  { clear -Hsel. apply Forall2_fmap_r in Hsel.
    induction Hsel as [|v p r ps (z & -> & Hz) _ (sel & -> & IH)].
    - by exists [].
    - exists (z :: sel). split; [done|]. by constructor. }
  exists selected, m, md. split; [done|]. split; [done|].
  split; [done|]. split; [done|]. split; [done|]. simpl.
  by rewrite <- list_fmap_compose.
Qed.

Lemma NoDup_acc_filter (P : ProteinProfile float → Prop)
    `{∀ p, Decision (P p)} ms :
  NoDup (acc <$> ms) → NoDup (acc <$> filter P ms).
Proof.
  intros Hnd. eapply sublist_NoDup; [exact Hnd|].
  apply fmap_sublist, sublist_filter.
Qed.

(** The dictionary that a successful alignment leaves in [pks_ali]. *)
Lemma consensus_dict c (selected : list Z) (md : Z) :
  NoDup (get_members c) →
  length selected = length (with_peaks c) →
  let d := py_dict (zip (acc <$> with_peaks c) (PyInt <$> selected))
           ∪ py_dict (zip (acc <$> without_peaks c)
                          (replicate (length (acc <$> without_peaks c))
                                     (PyInt md))) in
  size d = length (members c) ∧
  Forall2 (λ p z, d !! acc p = Some (PyInt z)) (with_peaks c) selected ∧
  Forall (λ p, d !! acc p = Some (PyInt md)) (without_peaks c).
Proof.
  intros Hnd Hlen d. unfold get_members in Hnd.
  assert (NoDup (acc <$> with_peaks c)) as Hnd1 by by apply NoDup_acc_filter.
  split; [|split].
  - rewrite <- (size_dom (D:=gset string)). subst d.
    rewrite dom_union_L, !dom_py_dict_zip.
    2:{ by rewrite length_replicate. }
    2:{ rewrite !length_fmap. lia. }
    rewrite <- list_to_set_app_L, <- fmap_app, size_list_to_set.
    + rewrite length_fmap, length_app. unfold with_peaks, without_peaks.
      clear. induction (members c) as [|p ms IH]; [done|].
      rewrite !filter_cons. destruct (decide (peaks p = [])) as [Hp|Hp].
      * rewrite decide_False by (by intros H; apply H). simpl in *. lia.
      * rewrite decide_True by done. simpl in *. lia.
    + rewrite fmap_app. apply NoDup_app. split; [done|]. split.
      * intros k (p & -> & [Hp Hin]%list_elem_of_filter)%list_elem_of_fmap
                 (p' & Hacc & [Hp' Hin']%list_elem_of_filter)%list_elem_of_fmap.
        assert (p = p') as <- by by apply (NoDup_fmap_elem_inj acc (members c)).
        done.
      * by apply NoDup_acc_filter.
  - apply Forall2_same_length_lookup_2; [done|]. intros i p z Hp Hz.
    subst d. apply lookup_union_Some_l.
    eapply py_dict_zip_lookup; [done| |].
    + by rewrite list_lookup_fmap, Hp.
    + by rewrite list_lookup_fmap, Hz.
  - apply Forall_forall. intros p Hp. subst d.
    rewrite lookup_union_r.
    + apply py_dict_zip_replicate, list_elem_of_fmap. by exists p.
    + apply py_dict_zip_lookup_None.
      apply list_elem_of_filter in Hp as [Hp Hin].
      intros (p' & Hacc & [Hp' Hin']%list_elem_of_filter)%list_elem_of_fmap.
      assert (p = p') as <- by by apply (NoDup_fmap_elem_inj acc (members c)).
      done.
Qed.
End AlignPeaks.

Section AlignPeaksTotal.
Context {float sdval : Type}.
Variable np_std : list (option Z) → sdval.
Variable sd_lt : sdval → sdval → bool.
Variable medi : option (list (option Z)) → outcome float.
Variable py_round : float → outcome Z.
Implicit Types (p : ProteinProfile float) (c : ComplexProfile float).

Lemma for_each_format_pks (d : gmap string pyval) ms pks0 :
  Forall (λ p, is_Some (d !! acc p)) ms →
  ∃ pks', for_each (format_pks d) pks0 ms = Return pks'.
Proof.
  intros Hall. revert pks0.
  induction Hall as [|p ms [v Hv] _ IH]; intros pks0; simpl; [by eexists|].
  unfold format_pks at 1. rewrite Hv. simpl. apply IH.
Qed.

(** The aligner answers with one integer per member that has a peak. *)
Lemma alligner_with_peaks c :
  with_peaks c ≠ [] →
  ∃ selected,
    alligner np_std sd_lt (peaks <$> with_peaks c)
      = Return (Some (Some <$> selected)) ∧
    Forall2 (λ z p, z ∈ peaks p) selected (with_peaks c).
Proof.
  intros Hne.
  assert (Forall (λ l : list Z, l ≠ []) (peaks <$> with_peaks c)) as Hpk.
  { apply Forall_fmap, Forall_forall. by intros p [? _]%list_elem_of_filter. }
  destruct (alligner_returns np_std sd_lt (peaks <$> with_peaks c)) as [r Hr];
    [by destruct (with_peaks c)|done|].
  destruct (alligner_result_selects _ _ _ _ Hpk Hr) as [_ Hsel].
  rewrite Hr. clear -Hsel. apply Forall2_fmap_r in Hsel.
  induction Hsel as [|v p r ps (z & -> & Hz) _ (sel & Heq & IH)].
  - by exists [].
  - exists (z :: sel). split; [|by constructor].
    injection Heq as ->. done.
Qed.

(** Alignment succeeds as soon as one member has a peak and the median
    of the selected peaks can be rounded. *)
Lemma align_peaks_succeeds c :
  NoDup (get_members c) → with_peaks c ≠ [] →
  (∀ selected, length selected = length (with_peaks c) →
     ∃ m md, medi (Some (Some <$> selected)) = Return m ∧
             py_round m = Return md) →
  ∃ c', align_peaks np_std sd_lt medi py_round c = Return (c', Some true).
Proof.
  intros Hnd Hne Hround.
  destruct (alligner_with_peaks c Hne) as (selected & Hal & Hown).
  pose proof (Forall2_length _ _ _ Hown) as Hlen.
  destruct (Hround selected Hlen) as (m & md & Hm & Hmd).
  destruct (consensus_dict c selected md Hnd Hlen) as (_ & Hwith & Hwithout).
  unfold align_peaks, get_members in *.
  rewrite nan_members_spec. simpl.
  rewrite pres_spec, mb_pres_spec by done.
  fold (with_peaks c) (without_peaks c) in *.
  rewrite bool_decide_eq_false_2.
  2:{ intros Hall%all_missing_iff. apply Hne. unfold with_peaks.
      clear -Hall. induction Hall as [|p ms Hp _ IH]; [done|].
      rewrite filter_cons, decide_False by (by intros H; apply H). done. }
  rewrite Hal. simpl. rewrite Hm. simpl. rewrite Hmd. simpl.
  rewrite <- list_fmap_compose.
  edestruct for_each_format_pks as [pks' ->]; [|by eexists].
  apply Forall_forall. intros p Hp.
  destruct (decide (peaks p = [])) as [Hpk|Hpk].
  - eapply Forall_forall in Hwithout; [by eexists|].
    by apply list_elem_of_filter.
  - assert (p ∈ with_peaks c) as [i Hi]%list_elem_of_lookup
      by by apply list_elem_of_filter.
    destruct (Forall2_lookup_l _ _ _ _ _ Hwith Hi) as (z & _ & Hz).
    by eexists.
Qed.
End AlignPeaksTotal.

(** [format_hash] never admits the same accession twice. *)
Lemma format_hash_NoDup {float} (float_of_string : string → outcome float)
    (peak_picking : list float → list Q) (temp : gmap string string)
    (c : ComplexProfile float) :
  format_hash float_of_string peak_picking temp = Return c →
  NoDup (get_members c).
Proof.
  unfold format_hash.
  destruct (dict_get temp "FT") as [ft| |]; [|done..]. simpl.
  destruct (dict_get temp "MB") as [mb| |]; [|done..]. simpl.
  destruct (dict_get temp "ID") as [ID| |]; [|done..]. simpl.
  assert (NoDup (get_members (new_complex (float:=float) ID))) as Hinit
    by constructor.
  revert Hinit. generalize (new_complex (float:=float) ID).
  generalize (imap pair (str_split hash_char mb) : list (nat * string)).
  intros l. induction l as [|[idx a] l IH]; intros tmp Hnd; simpl.
  - by intros [= <-].
  - case_bool_decide as Hin; simpl; [by apply IH|].
    destruct (str_split hash_char ft !! idx) as [s|]; [|done]. simpl.
    destruct (for_each _ [] (str_split comma_char s)) as [xs| |]; [|done..].
    simpl. apply IH. unfold get_members, add_member. simpl.
    rewrite fmap_app. apply NoDup_app. split; [done|]. split.
    + intros k Hk ->%list_elem_of_singleton. done.
    + apply NoDup_singleton.
Qed.

(** * The aligner: claims *)



(** C2. When some peak is shared by all members, [alligner] returns the
    largest shared peak once per member, whatever the tier-2 search and
    the tier-3 fallback are: neither is called. *)
Theorem tier1_returns_max_of_intersection
    (tier2 : list (list Z) → outcome (option (list Z)))
    (tier3 : list (list Z) → outcome (option (list (option Z))))
    (aoa : list (list Z)) :
  aoa ≠ [] → (∃ z, common aoa z) →
  ∃ m, common aoa m ∧ (∀ z, common aoa z → z ≤ m) ∧
       alligner_with tier2 tier3 aoa
         = Return (Some (replicate (length aoa) (Some m))) ∧
       ∀ sdval (np_std : list (option Z) → sdval) sd_lt,
         alligner np_std sd_lt aoa
           = Return (Some (replicate (length aoa) (Some m))).
Proof.
  intros Haoa Hc.
  destruct (tier1_spec tier2 tier3 aoa Haoa Hc) as (m & Hal & Hm & Hmax).
  exists m. split; [done|]. split; [done|]. split; [done|].
  intros sdval np_std sd_lt. unfold alligner.
  destruct (tier1_spec (λ aoa, shortest_path aoa default_max_trial)
              (min_sd np_std sd_lt) aoa Haoa Hc) as (m' & -> & Hm' & Hmax').
  assert (m' = m) as -> by (specialize (Hmax _ Hm'); specialize (Hmax' _ Hm); lia).
  done.
Qed.

Lemma tier1_returns_max_of_intersection_witness :
  ∃ m, common [[4; 7; 9]; [5; 7; 9; 12]] m ∧
       (∀ z, common [[4; 7; 9]; [5; 7; 9; 12]] z → z ≤ m) ∧
       alligner_with (λ _, Raise KeyError) (λ _, Raise KeyError)
         [[4; 7; 9]; [5; 7; 9; 12]]
         = Return (Some (replicate 2 (Some m))) ∧
       ∀ sdval (np_std : list (option Z) → sdval) sd_lt,
         alligner np_std sd_lt [[4; 7; 9]; [5; 7; 9; 12]]
           = Return (Some (replicate 2 (Some m))).
Proof.
  apply (tier1_returns_max_of_intersection
           (λ _, Raise KeyError) (λ _, Raise KeyError) [[4; 7; 9]; [5; 7; 9; 12]]).
  - discriminate.
  - exists 7. repeat constructor.
Defined.

(** C3. With the default budget of 5000 the search over non-empty peak
    lists always returns, and never raises: the counter [trial] ends
    between 1 and 5000, so at most 5000 frontier entries were taken out
    and expanded; the result is a complete assignment, or [None] when the
    budget is met, and in that case [alligner] (no peak being shared by
    all members) returns what the tier-3 fallback [min_sd] returns. *)
Theorem search_budget_then_fallback {sdval}
    (np_std : list (option Z) → sdval) (sd_lt : sdval → sdval → bool)
    (aoa : list (list Z)) :
  aoa ≠ [] → Forall (λ l, l ≠ []) aoa →
  ∃ t r,
    shortest_path_run aoa default_max_trial = Return (t, r) ∧
    shortest_path aoa default_max_trial = Return r ∧
    1 ≤ t ≤ 5000 ∧
    match r with
    | Some sol => selects sol aoa
    | None =>
        t = 5000 ∧
        ((∀ z, ¬ common aoa z) →
         alligner np_std sd_lt aoa = min_sd np_std sd_lt aoa)
    end.
Proof.
  intros Haoa Hne.
  destruct (shortest_path_run_returns aoa default_max_trial Haoa Hne)
    as (t & r & Hrun & Ht & Hr); [done|].
  exists t, r. split; [done|].
  assert (shortest_path aoa default_max_trial = Return r) as Hsp
    by (unfold shortest_path; by rewrite Hrun).
  split; [done|]. split; [done|].
  destruct r as [sol|]; [done|]. split; [done|].
  intros Hdis. unfold alligner. by rewrite alligner_with_disjoint, Hsp.
Qed.

Lemma crowded_exhausts_budget :
  shortest_path_run crowded default_max_trial = Return (5000, None).
Proof. vm_compute. reflexivity. Qed.

Lemma search_budget_then_fallback_witness :
  ∃ t r,
    shortest_path_run crowded default_max_trial = Return (t, r) ∧
    shortest_path crowded default_max_trial = Return r ∧
    1 ≤ t ≤ 5000 ∧
    match r with
    | Some sol => selects sol crowded
    | None =>
        t = 5000 ∧
        ((∀ z, ¬ common crowded z) →
         alligner exact_spread Z.ltb crowded = min_sd exact_spread Z.ltb crowded)
    end.
Proof.
  apply (search_budget_then_fallback exact_spread Z.ltb crowded).
  - discriminate.
  - vm_compute. repeat constructor; discriminate.
Defined.

(** C10. Whenever [alligner] returns an assignment for non-empty peak
    lists, the assignment has one value per member, in the order of the
    members, and each value is a peak of that member's own list, whichever
    of the three tiers produced it. *)
Theorem alligner_selects_own_peaks {sdval}
    (np_std : list (option Z) → sdval) (sd_lt : sdval → sdval → bool)
    (aoa : list (list Z)) (r : list (option Z)) :
  Forall (λ l, l ≠ []) aoa →
  alligner np_std sd_lt aoa = Return (Some r) →
  length r = length aoa ∧
  Forall2 (λ v l, ∃ z, v = Some z ∧ z ∈ l) r aoa.
Proof. apply alligner_result_selects. Qed.

Lemma alligner_selects_own_peaks_witness :
  length [Some 0; Some 10; Some 20; Some 30; Some 40; Some 50; Some 60;
          Some 70; Some 80; Some 90; Some 100; Some 110; Some 100000]
    = length crowded ∧
  Forall2 (λ v l, ∃ z, v = Some z ∧ z ∈ l)
    [Some 0; Some 10; Some 20; Some 30; Some 40; Some 50; Some 60;
     Some 70; Some 80; Some 90; Some 100; Some 110; Some 100000]
    crowded.
Proof.
  apply (alligner_selects_own_peaks exact_spread Z.ltb crowded).
  - vm_compute. repeat constructor; discriminate.
  - vm_compute. reflexivity.
Defined.

(** * The complex profile: claims *)

(** C4. After [align_peaks] has returned [True] on a complex with
    distinct accessions, [pks_ali] is a dictionary with exactly one entry
    per member; some member has a peak; every member with a peak maps to
    the peak the aligner selected for it, one of its own; and every member
    without a peak maps to the rounded median of the selected peaks. *)
Theorem aligned_complex_has_one_consensus_per_member {float sdval}
    (np_std : list (option Z) → sdval) (sd_lt : sdval → sdval → bool)
    (medi : option (list (option Z)) → outcome float)
    (py_round : float → outcome Z) (c c' : ComplexProfile float) :
  NoDup (get_members c) →
  align_peaks np_std sd_lt medi py_round c = Return (c', Some true) →
  ∃ (d : gmap string pyval) (selected : list Z) (m : float) (md : Z),
    pks_ali c' = Dict d ∧ members c' = members c ∧
    size d = length (members c') ∧
    with_peaks c ≠ [] ∧
    alligner np_std sd_lt (peaks <$> with_peaks c)
      = Return (Some (Some <$> selected)) ∧
    Forall2 (λ p z, d !! acc p = Some (PyInt z) ∧ z ∈ peaks p)
      (with_peaks c) selected ∧
    medi (Some (Some <$> selected)) = Return m ∧ py_round m = Return md ∧
    Forall (λ p, d !! acc p = Some (PyInt md)) (without_peaks c).
Proof.
  intros Hnd Hal.
  destruct (align_peaks_true_inv _ _ _ _ _ _ Hnd Hal)
    as (selected & m & md & Hsel & Hown & Hm & Hmd & Hmem & Hd).
  pose proof (Forall2_length _ _ _ Hown) as Hlen.
  destruct (consensus_dict c selected md Hnd Hlen) as (Hsize & Hwith & Hwithout).
  eexists _, selected, m, md. split; [exact Hd|]. split; [done|].
  split; [by rewrite Hmem|]. split.
  { intros Hnil. by rewrite Hnil in Hsel. }
  split; [done|]. split; [|done].
  apply Forall2_same_length_lookup_2; [done|]. intros i p z Hp Hz. split.
  - by eapply Forall2_lookup_lr in Hwith.
  - by eapply (Forall2_lookup_lr _ _ _ _ _ _ Hown).
Qed.

Lemma aligned_complex_has_one_consensus_per_member_witness :
  ∃ (d : gmap string pyval) (selected : list Z) (m : sym) (md : Z),
    pks_ali trio_aligned = Dict d ∧ members trio_aligned = members trio ∧
    size d = length (members trio_aligned) ∧
    with_peaks trio ≠ [] ∧
    alligner exact_spread Z.ltb (peaks <$> with_peaks trio)
      = Return (Some (Some <$> selected)) ∧
    Forall2 (λ p z, d !! acc p = Some (PyInt z) ∧ z ∈ peaks p)
      (with_peaks trio) selected ∧
    sym_medi (Some (Some <$> selected)) = Return m ∧ sym_round m = Return md ∧
    Forall (λ p, d !! acc p = Some (PyInt md)) (without_peaks trio).
Proof.
  apply (aligned_complex_has_one_consensus_per_member
           exact_spread Z.ltb sym_medi sym_round trio trio_aligned).
  - apply (bool_decide_unpack _). vm_compute. exact I.
  - vm_compute. reflexivity.
Defined.

(** The consensus values of [trio]: the search selects 4 and 5, and the
    member without a peak gets their median 4.5 rounded to 4. *)
Lemma trio_consensus :
  ∃ d, pks_ali trio_aligned = Dict d ∧
       d !! "A" = Some (PyInt 4) ∧ d !! "B" = Some (PyInt 4) ∧
       d !! "C" = Some (PyInt 5) ∧ size d = 3%nat.
Proof. eexists. split; [vm_compute; reflexivity|]. by vm_compute. Qed.

Section GenFeat.
Context {float sdval : Type}.
Variable np_std : list (option Z) → sdval.
Variable sd_lt : sdval → sdval → bool.
Variable medi : option (list (option Z)) → outcome float.
Variable py_round : float → outcome Z.
Variable fwhm : list float → outcome float.
Variable np_mean : list float → float.
Variables calc_go_score pairwise : ComplexProfile float → outcome (ComplexProfile float).
Variable create_row : ComplexProfile float → outcome string.
Implicit Types (c : ComplexProfile float).

Lemma gen_feat_rejected align c :
  test_complex c = false →
  gen_feat_with fwhm np_mean calc_go_score pairwise create_row align c
  = Return (c, (None, None)).
Proof. intros Htest. unfold gen_feat_with. by rewrite Htest. Qed.

Lemma gen_feat_all_missing c :
  Forall (λ p, peaks p = []) (members c) →
  ∃ c', gen_feat np_std sd_lt medi py_round fwhm np_mean
          calc_go_score pairwise create_row c
        = Return (c', (None, None)).
Proof.
  intros Hall. unfold gen_feat, gen_feat_with.
  destruct (test_complex c); [|by eexists].
  rewrite align_peaks_all_missing by done. simpl. by eexists.
Qed.
End GenFeat.

(** C7. When no member of a complex has a peak, [align_peaks] returns
    [None] after giving every member the value NaN; [gen_feat] returns
    [(None, None)] without raising, and the collecting loop keeps its two
    files as they were. *)
Theorem peakless_complex_yields_no_row {float sdval}
    (np_std : list (option Z) → sdval) (sd_lt : sdval → sdval → bool)
    (medi : option (list (option Z)) → outcome float)
    (py_round : float → outcome Z)
    (fwhm : list float → outcome float) (np_mean : list float → float)
    (calc_go_score pairwise : ComplexProfile float → outcome (ComplexProfile float))
    (create_row : ComplexProfile float → outcome string)
    (files : list string * list string) (c : ComplexProfile float) :
  Forall (λ p, peaks p = []) (members c) →
  (∃ c' d, align_peaks np_std sd_lt medi py_round c = Return (c', None) ∧
           pks_ali c' = Dict d ∧
           Forall (λ p, d !! acc p = Some PyNaN) (members c)) ∧
  (∃ c', gen_feat np_std sd_lt medi py_round fwhm np_mean
           calc_go_score pairwise create_row c = Return (c', (None, None))) ∧
  process np_std sd_lt medi py_round fwhm np_mean
    calc_go_score pairwise create_row files c = Return files.
Proof.
  intros Hall. split; [|split].
  - eexists _, _. split; [by apply align_peaks_all_missing|]. split; [done|].
    apply Forall_forall. intros p Hp.
    apply py_dict_zip_replicate, list_elem_of_fmap. by exists p.
  - by apply gen_feat_all_missing.
  - unfold process.
    destruct (gen_feat_all_missing np_std sd_lt medi py_round fwhm np_mean
                calc_go_score pairwise create_row c Hall) as [c' ->].
    done.
Qed.

Lemma peakless_complex_yields_no_row_witness :
  (∃ c' d, sym_align_peaks peakless = Return (c', None) ∧
           pks_ali c' = Dict d ∧
           Forall (λ p, d !! acc p = Some PyNaN) (members peakless)) ∧
  (∃ c', sym_gen_feat peakless = Return (c', (None, None))) ∧
  sym_process (["row"], ["peaks"]) peakless = Return (["row"], ["peaks"]).
Proof.
  apply (peakless_complex_yields_no_row exact_spread Z.ltb sym_medi sym_round
           sym_fwhm SMean no_go_score no_pairwise name_row
           (["row"], ["peaks"]) peakless).
  vm_compute. repeat constructor.
Defined.

(** C8. A complex with fewer than 2 or more than 100 members fails
    [test_complex]; [gen_feat] then returns [(None, None)] and leaves the
    complex as it was, whatever [align_peaks] is, for it is not called;
    the collecting loop keeps its two files as they were. *)
Theorem wrong_size_complex_is_rejected {float sdval}
    (np_std : list (option Z) → sdval) (sd_lt : sdval → sdval → bool)
    (medi : option (list (option Z)) → outcome float)
    (py_round : float → outcome Z)
    (fwhm : list float → outcome float) (np_mean : list float → float)
    (calc_go_score pairwise : ComplexProfile float → outcome (ComplexProfile float))
    (create_row : ComplexProfile float → outcome string)
    (files : list string * list string) (c : ComplexProfile float) :
  (length (members c) < 2 ∨ 100 < length (members c))%nat →
  test_complex c = false ∧
  (∀ align, gen_feat_with fwhm np_mean calc_go_score pairwise create_row align c
            = Return (c, (None, None))) ∧
  gen_feat np_std sd_lt medi py_round fwhm np_mean
    calc_go_score pairwise create_row c = Return (c, (None, None)) ∧
  process np_std sd_lt medi py_round fwhm np_mean
    calc_go_score pairwise create_row files c = Return files.
Proof.
  intros Hsize.
  assert (test_complex c = false) as Htest.
  { unfold test_complex.
    destruct (Nat.ltb_spec (length (members c)) 2);
      destruct (Nat.ltb_spec 100 (length (members c))); simpl; try done; lia. }
  split; [done|]. split; [|split].
  - intros align. by apply gen_feat_rejected.
  - by apply gen_feat_rejected.
  - unfold process, gen_feat. by rewrite gen_feat_rejected.
Qed.

Lemma wrong_size_complex_is_rejected_witness :
  (test_complex lonely = false ∧
   (∀ align, gen_feat_with sym_fwhm SMean no_go_score no_pairwise name_row align lonely
             = Return (lonely, (None, None))) ∧
   sym_gen_feat lonely = Return (lonely, (None, None)) ∧
   sym_process (["row"], ["peaks"]) lonely = Return (["row"], ["peaks"])) ∧
  (test_complex oversized = false ∧
   (∀ align, gen_feat_with sym_fwhm SMean no_go_score no_pairwise name_row align oversized
             = Return (oversized, (None, None))) ∧
   sym_gen_feat oversized = Return (oversized, (None, None)) ∧
   sym_process (["row"], ["peaks"]) oversized = Return (["row"], ["peaks"])).
Proof.
  split.
  - apply (wrong_size_complex_is_rejected exact_spread Z.ltb sym_medi sym_round
             sym_fwhm SMean no_go_score no_pairwise name_row
             (["row"], ["peaks"]) lonely).
    left. vm_compute. lia.
  - apply (wrong_size_complex_is_rejected exact_spread Z.ltb sym_medi sym_round
             sym_fwhm SMean no_go_score no_pairwise name_row
             (["row"], ["peaks"]) oversized).
    right. vm_compute. lia.
Defined.

(** * Slices, the correlation vector and the width window *)

Lemma slice_bound_le n i : (slice_bound n i ≤ n)%nat.
Proof.
  unfold slice_bound.
  destruct (i <? 0); (destruct (_ <? 0); [lia|apply Nat.le_min_r]).
Qed.

Lemma slice_bound_nonneg n i : 0 ≤ i → slice_bound n i = Nat.min (Z.to_nat i) n.
Proof.
  intros Hi. unfold slice_bound.
  destruct (Z.ltb_spec i 0) as [?|_]; [lia|]. cbv zeta iota.
  destruct (Z.ltb_spec i 0); [lia|done].
Qed.

Lemma slice_bound_neg n i : i < 0 → slice_bound n i = Z.to_nat (i + Z.of_nat n).
Proof.
  intros Hi. unfold slice_bound.
  destruct (Z.ltb_spec i 0) as [_|?]; [|lia]. cbv zeta iota.
  destruct (Z.ltb_spec (i + Z.of_nat n) 0); lia.
Qed.

Lemma py_slice_length {A} (xs : list A) (start stop : Z) :
  length (py_slice xs start stop)
  = (slice_bound (length xs) stop - slice_bound (length xs) start)%nat.
Proof.
  unfold py_slice. rewrite length_take, length_drop.
  pose proof (slice_bound_le (length xs) stop). lia.
Qed.

(** Number of valid windows on 72 fractions. *)
Lemma valid_means_length {float} (am : list float) (W : Z) :
  length am = 72%nat →
  (W = 10 → length (valid_means am W) = 63%nat) ∧
  (3 ≤ W ≤ 73 → length (valid_means am W) = Z.to_nat (73 - W)).
Proof.
  intros Hlen. unfold valid_means. rewrite py_slice_length, Hlen.
  split.
  - intros ->. reflexivity.
  - intros HW.
    assert (0 ≤ W / 2 ≤ 36 ∧ - W / 2 + 1 < 0 ∧ 0 ≤ - W / 2 + 1 + 72 ≤ 72
            ∧ W / 2 - - W / 2 = W) as (H1 & H2 & H3 & H4).
    { Z.div_mod_to_equations. lia. }
    rewrite (slice_bound_nonneg _ (W / 2)), (slice_bound_neg _ (- W / 2 + 1))
      by lia.
    lia.
Qed.

Section Correlation.
Context {float : Type}.
Variables fsub fmul fdiv : float → float → float.
Variable fsqrt : float → float.
Variable fsum : list float → float.
Variables fzero fone nan : float.
Variable uniform_filter : list float → Z → outcome (list float).
Variable corr_other_shapes : list float → list float → Z → outcome (list float).

(** The vector is one value per valid window, then nine NaN. *)
Lemma corr_vector_shape (a b am bm : list float) (W : Z) :
  length a = length b →
  uniform_filter a W = Return am → length am = length a →
  uniform_filter b W = Return bm → length bm = length b →
  ∃ r, corr_vector fsub fmul fdiv fsqrt fsum fzero fone nan uniform_filter
         corr_other_shapes a b W
         = Return (r ++ replicate 9 nan) ∧
       length r = length (valid_means am W).
Proof.
  intros Hab Ham Hlam Hbm Hlbm. unfold corr_vector.
  rewrite Ham, Hbm. simpl.
  assert (length (valid_means am W) = length (valid_means bm W)) as Hvalid.
  { unfold valid_means. rewrite !py_slice_length. congruence. }
  rewrite bool_decide_eq_true_2 by done.
  eexists. split; [done|].
  rewrite length_imap, length_zip. lia.
Qed.
End Correlation.

(** For two members with 72 fractions each, whose moving averages keep
    that length, [calc_corr] appends to [cor] the valid windowed
    correlations followed by nine NaN, whatever the window is: 63 + 9 = 72
    values at the default window, [82 - W] values for a window between 3
    and 73. *)
Lemma corr_vector_length {float}
    (fsub fmul fdiv : float → float → float) (fsqrt : float → float)
    (fsum : list float → float) (fzero fone nan : float)
    (uniform_filter : list float → Z → outcome (list float))
    (corr_other_shapes : list float → list float → Z → outcome (list float))
    (c : ComplexProfile float) (pairs : ProteinProfile float * ProteinProfile float)
    (am bm : list float) (W : Z) :
  length (inten pairs.1) = 72%nat → length (inten pairs.2) = 72%nat →
  uniform_filter (inten pairs.1) W = Return am → length am = 72%nat →
  uniform_filter (inten pairs.2) W = Return bm → length bm = 72%nat →
  ∃ r, calc_corr fsub fmul fdiv fsqrt fsum fzero fone nan uniform_filter
         corr_other_shapes c pairs W
         = Return (set_cor c (cor c ++ [r ++ replicate 9 nan])) ∧
       (W = default_W → length r = 63%nat ∧
                        length (r ++ replicate 9 nan) = 72%nat) ∧
       (3 ≤ W ≤ 73 → length (r ++ replicate 9 nan) = Z.to_nat (82 - W)).
Proof.
  intros Ha Hb Ham Hlam Hbm Hlbm.
  destruct (corr_vector_shape fsub fmul fdiv fsqrt fsum fzero fone nan
              uniform_filter corr_other_shapes (inten pairs.1) (inten pairs.2)
              am bm W)
    as (r & Hr & Hlen); [congruence|done|congruence|done|congruence|].
  destruct (valid_means_length am W Hlam) as [H10 HW].
  exists r. split.
  - unfold calc_corr. by rewrite Hr.
  - rewrite length_app, length_replicate, Hlen. split.
    + intros ->%H10. done.
    + intros H. rewrite (HW H). lia.
Qed.

(** C5 (the code departs from it). The nine NaN that [calc_corr] appends
    to reach 72 entries reach them at the default window only.  Called
    with a window of 8 on two members of 72 fractions, it appends a vector
    of 65 + 9 = 74 entries, where the same call with the default window
    appends 63 + 9 = 72. *)
Theorem corr_vector_window_8 :
  (∃ v, sym_calc_corr peakless
          (mkProtein "A" (flat 72) [], mkProtein "B" (flat 72) []) default_W
          = Return (set_cor peakless (cor peakless ++ [v])) ∧
        length v = 72%nat) ∧
  (∃ v, sym_calc_corr peakless
          (mkProtein "A" (flat 72) [], mkProtein "B" (flat 72) []) 8
          = Return (set_cor peakless (cor peakless ++ [v])) ∧
        length v = 74%nat ∧ length v ≠ 72%nat).
Proof.
  split.
  - destruct (corr_vector_length SSub SMul SDiv SSqrt SSum (SNum 0) (SNum 1) SNaN
                sym_uniform_filter sym_other_shapes peakless
                (mkProtein "A" (flat 72) [], mkProtein "B" (flat 72) [])
                (imap (λ i _, SFilter (flat 72) 10 i) (flat 72))
                (imap (λ i _, SFilter (flat 72) 10 i) (flat 72)) default_W)
      as (r & Hr & H10 & _); [reflexivity..|].
    exists (r ++ replicate 9 SNaN). split; [exact Hr|]. by apply H10.
  - destruct (corr_vector_length SSub SMul SDiv SSqrt SSum (SNum 0) (SNum 1) SNaN
                sym_uniform_filter sym_other_shapes peakless
                (mkProtein "A" (flat 72) [], mkProtein "B" (flat 72) [])
                (imap (λ i _, SFilter (flat 72) 8 i) (flat 72))
                (imap (λ i _, SFilter (flat 72) 8 i) (flat 72)) 8)
      as (r & Hr & _ & HW); [reflexivity..|].
    exists (r ++ replicate 9 SNaN). split; [exact Hr|].
    rewrite HW by lia. split; [reflexivity|discriminate].
Qed.

Section Width.
Context {float : Type}.
Implicit Types (prot : ProteinProfile float).

(** From fraction 5 on the window is the ten fractions around the peak,
    cut at the end of the profile. *)
Lemma prot_peak_centered prot (peak : Z) :
  5 ≤ peak →
  prot_peak prot peak = take 10 (drop (Z.to_nat (peak - 5)) (inten prot)).
Proof.
  intros Hpeak. unfold prot_peak, py_slice, q.
  rewrite (slice_bound_nonneg _ (peak - 5)), (slice_bound_nonneg _ (peak + 5))
    by lia.
  destruct (decide (Z.to_nat (peak - 5) ≤ length (inten prot))%nat) as [Hle|Hgt].
  - rewrite (Nat.min_l (Z.to_nat (peak - 5))) by done.
    destruct (decide (Z.to_nat (peak + 5) ≤ length (inten prot))%nat).
    + rewrite Nat.min_l by done. f_equal. lia.
    + rewrite Nat.min_r by lia.
      rewrite !take_ge; [done|rewrite length_drop; lia..].
  - rewrite !drop_ge by lia. by rewrite !take_nil.
Qed.

(** Below fraction 5 the lower bound is negative and counts from the end
    of the profile: the window is empty. *)
Lemma prot_peak_early prot (peak : Z) :
  (10 ≤ length (inten prot))%nat → 0 ≤ peak < 5 →
  prot_peak prot peak = [].
Proof.
  intros Hlen Hpeak. unfold prot_peak, py_slice, q.
  rewrite (slice_bound_neg _ (peak - 5)), (slice_bound_nonneg _ (peak + 5))
    by lia.
  apply length_zero_iff_nil. rewrite length_take. lia.
Qed.
End Width.

(** C6 (the code departs from it). Both members of [early] are aligned
    to fraction 3.  [calc_width] then hands [fwhm] an empty window for
    each of them, not the fractions 0 to 7 that lie within five fractions
    of the peak, while a peak at fraction 5 does get its ten fractions. *)
Theorem early_peak_window_is_empty :
  sym_align_peaks early = Return (early_aligned, Some true) ∧
  pks_ali_get (pks_ali early_aligned) "A" = Return (PyInt 3) ∧
  prot_peak (mkProtein "A" ramp [3]) 3 = [] ∧
  out_map width (calc_width sym_fwhm SMean early_aligned)
    = Return (Some (SMean [SFwhm []; SFwhm []])) ∧
  prot_peak (mkProtein "A" ramp [3]) 5 = take 10 ramp ∧
  py_slice ramp 0 (3 + q) = take 8 ramp.
Proof. repeat split; vm_compute; reflexivity. Qed.

(** * Peak detection *)

(** A detector that reports fraction 3 twice leaves two peaks. *)
Lemma duplicate_peaks_are_kept :
  peaks (calc_peaks twice_three (new_protein "A" (flat 72))) = [3; 3] ∧
  ¬ NoDup (peaks (calc_peaks twice_three (new_protein "A" (flat 72)))).
Proof.
  split; [reflexivity|]. intros Hnd.
  apply NoDup_cons in Hnd as [Hnot _]. apply Hnot. by left.
Qed.

Lemma int_of_number_integer (n : Z) : int_of_number (inject_Z n) = n.
Proof. unfold int_of_number. simpl. apply Z.quot_1_r. Qed.

(** C9 (amended). [calc_peaks] stores a list: one integer for each index
    that the detector returned, in the detector's order, an integer index
    unchanged; the accession and the intensities stay; an index returned
    twice is stored twice. *)
Theorem calc_peaks_keeps_every_index {float}
    (peak_picking : list float → list Q) (p : ProteinProfile float) :
  acc (calc_peaks peak_picking p) = acc p ∧
  inten (calc_peaks peak_picking p) = inten p ∧
  length (peaks (calc_peaks peak_picking p)) = length (peak_picking (inten p)) ∧
  (∀ i x, peak_picking (inten p) !! i = Some x →
          peaks (calc_peaks peak_picking p) !! i = Some (int_of_number x)) ∧
  (∀ i (n : Z), peak_picking (inten p) !! i = Some (inject_Z n) →
          peaks (calc_peaks peak_picking p) !! i = Some n) ∧
  (∀ i j x, i ≠ j → peak_picking (inten p) !! i = Some x →
            peak_picking (inten p) !! j = Some x →
            ¬ NoDup (peaks (calc_peaks peak_picking p))).
Proof.
  unfold calc_peaks. simpl.
  assert (∀ i x, peak_picking (inten p) !! i = Some x →
            (int_of_number <$> peak_picking (inten p)) !! i
            = Some (int_of_number x)) as Hlookup.
  { intros i x Hx. by rewrite list_lookup_fmap, Hx. }
  split; [done|]. split; [done|]. split; [by rewrite length_fmap|].
  split; [done|]. split.
  - intros i n Hn. by rewrite (Hlookup _ _ Hn), int_of_number_integer.
  - intros i j x Hij Hi Hj Hnd. apply Hij.
    eapply NoDup_lookup; [exact Hnd| |]; by apply Hlookup.
Qed.

Lemma calc_peaks_keeps_every_index_witness :
  let p := new_protein "A" (flat 72) in
  acc (calc_peaks twice_three p) = acc p ∧
  inten (calc_peaks twice_three p) = inten p ∧
  length (peaks (calc_peaks twice_three p)) = length (twice_three (inten p)) ∧
  (∀ i x, twice_three (inten p) !! i = Some x →
          peaks (calc_peaks twice_three p) !! i = Some (int_of_number x)) ∧
  (∀ i (n : Z), twice_three (inten p) !! i = Some (inject_Z n) →
          peaks (calc_peaks twice_three p) !! i = Some n) ∧
  (∀ i j x, i ≠ j → twice_three (inten p) !! i = Some x →
            twice_three (inten p) !! j = Some x →
            ¬ NoDup (peaks (calc_peaks twice_three p))).
Proof.
  exact (calc_peaks_keeps_every_index twice_three (new_protein "A" (flat 72))).
Defined.

(** * Further properties: the search *)

Lemma add_top_split (result : list partial) (item : partial) :
  ∃ l1 l2, result = l1 ++ l2 ∧ add_top result item = l1 ++ item :: l2 ∧
           Forall (λ e, e.2 < item.2) l1 ∧
           match l2 with [] => True | e :: _ => item.2 ≤ e.2 end.
Proof.
  induction result as [|r rest (l1 & l2 & Hrest & Hadd & Hlt & Hge)]; simpl.
  - by exists [], [].
  - destruct (Z.ltb_spec r.2 item.2) as [Hr|Hr].
    + exists (r :: l1), l2. rewrite Hrest at 1. rewrite Hadd.
      split; [done|]. split; [done|]. split; [by constructor|done].
    + exists [], (r :: rest). by repeat split.
Qed.

(** X1. [add_top] puts the item into the frontier without touching the
    other entries: it lands after every entry that is strictly cheaper
    and before the first entry that is not, so before entries of equal
    cost; a frontier sorted by cost stays sorted. *)
Theorem add_top_inserts_by_cost (result : list partial) (item : partial) :
  StronglySorted by_cost result →
  ∃ l1 l2, result = l1 ++ l2 ∧ add_top result item = l1 ++ item :: l2 ∧
           Forall (λ e, e.2 < item.2) l1 ∧ Forall (λ e, item.2 ≤ e.2) l2 ∧
           StronglySorted by_cost (add_top result item).
Proof.
  intros Hs. destruct (add_top_split result item) as (l1 & l2 & Hres & Hadd & Hlt & Hge).
  exists l1, l2. split; [done|]. split; [done|]. split; [done|].
  split; [|by apply add_top_sorted].
  subst result. apply StronglySorted_app_1_r in Hs.
  destruct l2 as [|e l2]; [constructor|].
  apply StronglySorted_inv in Hs as [_ Hall].
  constructor; [done|]. eapply Forall_impl; [exact Hall|].
  unfold by_cost. intros; lia.
Qed.

Lemma add_top_inserts_by_cost_witness :
  ∃ l1 l2, [([1], 0); ([1; 3], 2); ([1; 9], 8)] = l1 ++ l2 ∧
           add_top [([1], 0); ([1; 3], 2); ([1; 9], 8)] ([2; 4], 2)
             = l1 ++ ([2; 4], 2) :: l2 ∧
           Forall (λ e : partial, e.2 < 2) l1 ∧ Forall (λ e : partial, 2 ≤ e.2) l2 ∧
           StronglySorted by_cost
             (add_top [([1], 0); ([1; 3], 2); ([1; 9], 8)] ([2; 4], 2)).
Proof.
  apply (add_top_inserts_by_cost [([1], 0); ([1; 3], 2); ([1; 9], 8)] ([2; 4], 2)).
  repeat constructor; unfold by_cost; simpl; lia.
Defined.

Lemma spread_to_perm (x : Z) (l l' : list Z) :
  l ≡ₚ l' → spread_to x l = spread_to x l'.
Proof.
  induction 1 as [|y l l' _ IH|y z l|l l' l'' _ IH1 _ IH2]; simpl; lia.
Qed.

Lemma minimize_perm (sol sol' : list Z) :
  sol ≡ₚ sol' → minimize sol = minimize sol'.
Proof.
  induction 1 as [|x l l' Hp IH|x y l|l l' l'' _ IH1 _ IH2].
  - done.
  - rewrite !minimize_cons, IH, (spread_to_perm x l l') by done. done.
  - rewrite !minimize_cons. simpl. lia.
  - congruence.
Qed.

(** X2. The cost [minimize] does not depend on the order in which the
    members are listed: a rearranged solution costs the same. *)
Theorem minimize_ignores_order (sol sol' : list Z) :
  sol ≡ₚ sol' → minimize sol = minimize sol'.
Proof. apply minimize_perm. Qed.

Lemma minimize_ignores_order_witness :
  minimize [4; 9; 5] = minimize [9; 5; 4].
Proof.
  apply (minimize_ignores_order [4; 9; 5] [9; 5; 4]).
  apply (bool_decide_unpack _). vm_compute. exact I.
Defined.

Lemma spread_to_zero (x : Z) (l : list Z) :
  spread_to x l = 0 ↔ Forall (λ y, y = x) l.
Proof.
  induction l as [|y l IH]; simpl.
  - split; [constructor|done].
  - pose proof (spread_to_nonneg x l). rewrite Forall_cons, <- IH. lia.
Qed.

(** X3. The cost is never negative, and it is zero exactly when all the
    chosen peaks are the same fraction. *)
Theorem minimize_zero_iff_all_equal (sol : list Z) :
  0 ≤ minimize sol ∧
  (minimize sol = 0 ↔ ∀ x y, x ∈ sol → y ∈ sol → x = y).
Proof.
  split; [apply minimize_nonneg|].
  induction sol as [|x sol IH]; [split; [by intros _ ? ? ?%elem_of_nil|done]|].
  rewrite minimize_cons.
  pose proof (spread_to_nonneg x sol). pose proof (minimize_nonneg sol).
  split.
  - intros Hz. assert (spread_to x sol = 0 ∧ minimize sol = 0) as [Hs Hm] by lia.
    apply spread_to_zero in Hs.
    assert (∀ y, y ∈ x :: sol → y = x) as Hall.
    { intros y [->|Hy]%elem_of_cons; [done|]. by eapply Forall_forall in Hs. }
    intros a b Ha Hb. by rewrite (Hall a Ha), (Hall b Hb).
  - intros Hall.
    assert (spread_to x sol = 0) as ->.
    { apply spread_to_zero, Forall_forall. intros y Hy.
      apply Hall; [by right|by left]. }
    assert (minimize sol = 0) as ->; [|done].
    apply IH. intros a b Ha Hb. apply Hall; by right.
Qed.

(** X4. Adding a member to a partial solution adds the distances from the
    new peak to the peaks chosen so far; extending a partial solution by
    any further peaks never lowers its cost. *)
Theorem minimize_grows_with_extension (sol more : list Z) (peak : Z) :
  minimize (sol ++ [peak]) = minimize sol + spread_to peak sol ∧
  0 ≤ spread_to peak sol ∧
  minimize sol ≤ minimize (sol ++ more).
Proof.
  split; [apply minimize_snoc|]. split; [apply spread_to_nonneg|].
  apply minimize_app_le.
Qed.

Lemma shortest_path_loop_budget fuel fuel' (aoa : list (list Z)) elements
    (b b' : Z) (result : list partial) (trial t : Z) (sol : list Z) :
  shortest_path_loop fuel aoa elements b result trial = Return (t, Some sol) →
  trial ≤ b → b ≤ b' → (Z.to_nat (b' - trial) < fuel')%nat →
  shortest_path_loop fuel' aoa elements b' result trial = Return (t, Some sol).
Proof.
  revert fuel' result trial.
  induction fuel as [|fuel IH]; intros fuel' result trial; simpl; [done|].
  destruct (Z.eqb_spec trial b) as [->|Hne]; [done|].
  intros Hrun Hle Hb Hfuel.
  destruct fuel' as [|fuel']; [lia|]. simpl.
  destruct (Z.eqb_spec trial b') as [->|Hne']; [lia|].
  destruct result as [|e result]; [done|].
  destruct (length e.1 =? elements)%nat; [done|].
  destruct (aoa !! length e.1) as [peaks|]; [|done].
  apply (IH fuel' _ _ Hrun); lia.
Qed.

(** X5. From a budget of 1 on, a larger trial budget never changes an
    answer: the assignment that [shortest_path] returns under a budget is
    the one it returns under every larger budget.  (A budget below 1 is
    never met by the counter, so it stands for no budget at all.) *)
Theorem shortest_path_budget_monotone (aoa : list (list Z)) (b b' : Z)
    (sol : list Z) :
  1 ≤ b → b ≤ b' →
  shortest_path aoa b = Return (Some sol) →
  shortest_path aoa b' = Return (Some sol).
Proof.
  intros Hb1 Hb. unfold shortest_path, shortest_path_run, out_map.
  destruct aoa as [|first rest]; [done|].
  destruct (Z.ltb_spec b 1) as [?|_]; [lia|].
  destruct (Z.ltb_spec b' 1) as [?|_]; [lia|]. cbv zeta.
  destruct (shortest_path_loop (Z.to_nat b) _ _ _ _ _) as [[t r]| |] eqn:Hrun;
    [|done..].
  simpl. intros [= ->].
  erewrite shortest_path_loop_budget; [done|exact Hrun|lia..].
Qed.

Lemma shortest_path_budget_monotone_witness :
  shortest_path [[4; 70; 9]; [5; 17; 8; 12]; [1; 100]] 5000
  = Return (Some [4; 5; 1]).
Proof.
  apply (shortest_path_budget_monotone [[4; 70; 9]; [5; 17; 8; 12]; [1; 100]] 10 5000).
  - lia.
  - lia.
  - vm_compute. reflexivity.
Defined.

(** Without a budget the search still ends: every turn of the loop pops
    one of finitely many partial selections for good. *)
Lemma pending_cons (aoa : list (list Z)) (e : partial) (result : list partial) :
  pending aoa (e :: result)
  = (search_space (drop (length e.1) aoa) + pending aoa result)%nat.
Proof. done. Qed.

Lemma pending_add_top (aoa : list (list Z)) (result : list partial) (item : partial) :
  pending aoa (add_top result item)
  = (search_space (drop (length item.1) aoa) + pending aoa result)%nat.
Proof.
  induction result as [|r result IH]; cbn [add_top]; [done|].
  destruct (r.2 <? item.2); [|done]. rewrite !pending_cons, IH. lia.
Qed.

Lemma pending_expand (aoa : list (list Z)) (sol peaks : list Z)
    (result : list partial) :
  pending aoa (expand sol peaks result)
  = (length peaks * search_space (drop (S (length sol)) aoa)
     + pending aoa result)%nat.
Proof.
  unfold expand. revert result.
  induction peaks as [|peak peaks IH]; intros result; cbn [foldl length]; [done|].
  rewrite IH, pending_add_top. cbn [fst]. rewrite length_app. cbn [length].
  replace (length sol + 1)%nat with (S (length sol)) by lia. lia.
Qed.

Lemma shortest_path_loop_unbounded fuel (aoa : list (list Z)) (elements : nat)
    (max_trial : Z) (result : list partial) (trial : Z) :
  max_trial < trial → (pending aoa result < fuel)%nat →
  shortest_path_loop fuel aoa elements max_trial result trial ≠ OutOfFuel
  ∧ ∀ t, shortest_path_loop fuel aoa elements max_trial result trial
         ≠ Return (t, None).
Proof.
  revert result trial.
  induction fuel as [|fuel IH]; intros result trial Hlt Hfuel; simpl; [lia|].
  destruct (Z.eqb_spec trial max_trial) as [?|_]; [lia|].
  destruct result as [|e result]; [done|].
  destruct (length e.1 =? elements)%nat; [done|].
  destruct (aoa !! length e.1) as [peaks|] eqn:Hpeaks; [|done].
  apply IH; [lia|]. rewrite pending_expand.
  rewrite pending_cons, (drop_S _ _ _ Hpeaks) in Hfuel.
  cbn [search_space] in Hfuel. lia.
Qed.

Lemma pending_init (first : list Z) (rest : list (list Z)) :
  (pending (first :: rest) ((λ x : Z, ([x], 0%Z)) <$> first)
   < search_space (first :: rest))%nat.
Proof.
  assert (∀ l : list Z,
            pending (first :: rest) ((λ x : Z, ([x], 0%Z)) <$> l)
            = (length l * search_space rest)%nat) as ->.
  { induction l as [|x l IH]; [done|].
    rewrite fmap_cons, pending_cons, IH. simpl. rewrite drop_0. lia. }
  cbn [search_space]. lia.
Qed.

Lemma entry_ok_incomplete (aoa : list (list Z)) (e : partial) :
  Exists (λ l, l = []) aoa → entry_ok aoa e → length e.1 ≠ length aoa.
Proof.
  intros Hex (_ & _ & Hsel) Hlen.
  rewrite Hlen, firstn_all in Hsel. unfold selects in Hsel.
  clear Hlen. induction Hsel as [|x l sel ls Hx _ IH].
  - by apply Exists_nil in Hex.
  - apply Exists_cons in Hex as [->|Hex]; [by apply elem_of_nil in Hx|by apply IH].
Qed.

Lemma shortest_path_loop_empty_member fuel (aoa : list (list Z)) (b : Z)
    (result : list partial) (trial : Z) :
  Exists (λ l, l = []) aoa → Forall (entry_ok aoa) result →
  (∃ t, shortest_path_loop fuel aoa (length aoa) b result trial = Return (t, None))
  ∨ shortest_path_loop fuel aoa (length aoa) b result trial = Raise IndexError
  ∨ shortest_path_loop fuel aoa (length aoa) b result trial = OutOfFuel.
Proof.
  intros Hex. revert result trial.
  induction fuel as [|fuel IH]; intros result trial He; simpl; [by right; right|].
  destruct (Z.eqb_spec trial b) as [->|Hne]; [left; by eexists|].
  destruct result as [|e result]; [by right; left|].
  apply Forall_cons in He as [Hsol He].
  pose proof (entry_ok_incomplete aoa e Hex Hsol) as Hinc.
  destruct (Nat.eqb_spec (length e.1) (length aoa)) as [?|_]; [done|].
  destruct (aoa !! length e.1) as [peaks|] eqn:Hpeaks; [|by right; left].
  apply IH. by apply entries_ok_expand.
Qed.

Lemma shortest_path_loop_bounded fuel (aoa : list (list Z)) (elements : nat)
    (max_trial : Z) (result : list partial) (trial : Z) :
  trial ≤ max_trial → (Z.to_nat (max_trial - trial) < fuel)%nat →
  shortest_path_loop fuel aoa elements max_trial result trial ≠ OutOfFuel.
Proof.
  revert result trial.
  induction fuel as [|fuel IH]; intros result trial Hle Hfuel; simpl; [lia|].
  destruct (Z.eqb_spec trial max_trial) as [?|Hne]; [done|].
  destruct result as [|e result]; [done|].
  destruct (length e.1 =? elements)%nat; [done|].
  destruct (aoa !! length e.1) as [peaks|]; [|done].
  apply IH; lia.
Qed.

(** The run never ends for want of fuel. *)
Lemma shortest_path_run_fuel (aoa : list (list Z)) (max_trial : Z) :
  shortest_path_run aoa max_trial ≠ OutOfFuel.
Proof.
  unfold shortest_path_run. destruct aoa as [|first rest]; [done|].
  destruct (Z.ltb_spec max_trial 1) as [Hlt|Hge]; cbv zeta.
  - apply shortest_path_loop_unbounded; [lia|apply pending_init].
  - apply shortest_path_loop_bounded; lia.
Qed.

(** X6. When some member has no peak, [shortest_path] called on its own
    never returns an assignment, whatever the budget: it ends with [None]
    at the budget, or with the [IndexError] of an emptied frontier. *)
Theorem shortest_path_needs_peaks (aoa : list (list Z)) (b : Z) :
  Exists (λ l, l = []) aoa →
  shortest_path aoa b = Return None ∨ shortest_path aoa b = Raise IndexError.
Proof.
  intros Hex. pose proof (shortest_path_run_fuel aoa b) as Hfuel.
  unfold shortest_path, shortest_path_run in *.
  destruct aoa as [|first rest] eqn:Haoa; [by right|]. rewrite <- Haoa in *.
  cbv zeta in *.
  destruct (shortest_path_loop_empty_member
              (if b <? 1 then search_space aoa else Z.to_nat b) aoa b
              ((λ x, ([x], 0)) <$> first) 1 Hex) as [[t Hr]|[Hr|Hr]].
  - by eapply frontier_inv_init.
  - rewrite Hr. by left.
  - rewrite Hr. by right.
  - done.
Qed.

Lemma shortest_path_needs_peaks_witness :
  shortest_path [[4; 9]; []; [5]] 0 = Return None
  ∨ shortest_path [[4; 9]; []; [5]] 0 = Raise IndexError.
Proof.
  apply (shortest_path_needs_peaks [[4; 9]; []; [5]] 0).
  apply Exists_cons_tl, Exists_cons_hd. reflexivity.
Defined.

(** * Further properties: the fallback and the aligner *)

Section MoreMinSd.
Context {sdval : Type}.
Variable np_std : list (option Z) → sdval.
Variable sd_lt : sdval → sdval → bool.

Lemma foldl_max_len_attained (x : nat) (xs : list nat) :
  foldl Nat.max x xs = x ∨ foldl Nat.max x xs ∈ xs.
Proof.
  revert x. induction xs as [|y xs IH]; intros x; simpl; [by left|].
  destruct (IH (Nat.max x y)) as [Heq|Hin]; [|right; by right].
  rewrite Heq. destruct (Nat.max_spec x y) as [[_ ->]|[_ ->]];
    [right; by left|by left].
Qed.

Lemma py_max_len_attained (xs : list nat) :
  xs ≠ [] →
  ∃ ln, py_max_len xs = Return ln ∧ ln ∈ xs ∧ Forall (λ y, (y ≤ ln)%nat) xs.
Proof.
  intros Hne. destruct (py_max_len_spec xs Hne) as (ln & Hln & Hall).
  exists ln. split; [done|]. split; [|done].
  destruct xs as [|x xs]; [done|]. simpl in Hln. injection Hln as <-.
  destruct (foldl_max_len_attained x xs) as [->|Hin]; [by left|by right].
Qed.

Lemma pad_row_lookup ln (l : list Z) j :
  (length l ≤ ln)%nat → (j < ln)%nat →
  pad_row ln l !! j = match l !! j with Some z => Some z | None => last l end.
Proof.
  intros Hlen Hj. unfold pad_row.
  destruct (last l) as [x|] eqn:Hlast.
  - destruct (decide (j < length l)%nat) as [Hlt|Hge].
    + rewrite lookup_app_l by done.
      by destruct (lookup_lt_is_Some_2 l j Hlt) as [z ->].
    + rewrite lookup_app_r by lia.
      rewrite (lookup_ge_None_2 l j) by lia.
      apply lookup_replicate_2. lia.
  - apply last_None in Hlast as ->. done.
Qed.

Lemma max_len_bounded ln (rows : list (list Z)) :
  Forall (λ row, (length row ≤ ln)%nat) rows →
  Exists (λ row, length row = ln) rows →
  foldr Nat.max 0%nat (length <$> rows) = ln.
Proof.
  intros Hall Hex.
  assert (foldr Nat.max 0%nat (length <$> rows) ≤ ln)%nat as Hle.
  { clear Hex. induction Hall as [|row rows Hrow _ IH]; [simpl; lia|].
    rewrite fmap_cons. cbn [foldr]. lia. }
  assert (ln ≤ foldr Nat.max 0%nat (length <$> rows))%nat as Hge; [|lia].
  clear Hall Hle.
  induction Hex as [row rows Hrow|row rows _ IH]; rewrite fmap_cons; cbn [foldr]; lia.
Qed.

Lemma min_sd_column (aoa : list (list Z)) :
  Exists (λ l, l ≠ []) aoa →
  ∃ j l0, l0 ∈ aoa ∧ (j < length l0)%nat ∧
    min_sd np_std sd_lt aoa
    = Return (Some ((λ l : list Z,
                       match l !! j with Some z => Some z | None => last l end)
                    <$> aoa)).
Proof.
  intros Hex. unfold min_sd.
  destruct (py_max_len_attained (length <$> aoa)) as (ln & -> & Hin & Hln).
  { intros Hnil%fmap_nil_inv. subst. by apply Exists_nil in Hex. }
  apply list_elem_of_fmap in Hin as (l0 & Hl0 & Hin0).
  apply Forall_fmap in Hln. simpl.
  assert (1 ≤ ln)%nat as Hpos.
  { apply Exists_exists in Hex as (l & Hl & Hne).
    eapply Forall_forall in Hln; [|exact Hl]. simpl in Hln.
    destruct l; [done|]. simpl in Hln. lia. }
  assert (foldr Nat.max 0%nat (length <$> (pad_row ln <$> (take ln <$> aoa))) = ln)
    as Hmax.
  { apply max_len_bounded.
    - rewrite <- list_fmap_compose. apply Forall_fmap.
      eapply Forall_impl; [exact Hln|]. intros l Hl. simpl in *.
      rewrite take_ge by done. destruct (decide (l = [])) as [->|Hne]; [simpl; lia|].
      by rewrite pad_row_length.
    - rewrite <- list_fmap_compose. apply Exists_fmap, Exists_exists.
      exists l0. split; [done|]. simpl. rewrite take_ge by lia.
      apply pad_row_length; [|lia]. intros ->. simpl in *. lia. }
  destruct (min_index sd_lt _) as [j|] eqn:Hj.
  2:{ destruct (min_index_is_Some sd_lt
                  (np_std <$> columns (pad_row ln <$> (take ln <$> aoa))))
        as [j' Hj']; [|congruence].
      intros Hnil%fmap_nil_inv. apply (f_equal length) in Hnil.
      rewrite columns_length, Hmax in Hnil. simpl in Hnil. lia. }
  apply min_index_lt in Hj. rewrite length_fmap, columns_length, Hmax in Hj.
  exists j, l0. split; [done|]. split; [lia|].
  do 2 f_equal. rewrite <- !list_fmap_compose.
  apply Forall_fmap_ext_1. eapply Forall_impl; [exact Hln|].
  intros l Hl. simpl in *. rewrite take_ge by done. by apply pad_row_lookup.
Qed.
End MoreMinSd.

(** X7. When at least one member has a peak, [min_sd] fixes one column
    index, within the longest list, and returns for every member the
    peak it lists at that index; a member with fewer peaks gets its last
    peak, a member without peaks gets [None]. *)
Theorem min_sd_reads_one_column {sdval} (np_std : list (option Z) → sdval)
    (sd_lt : sdval → sdval → bool) (aoa : list (list Z)) :
  Exists (λ l, l ≠ []) aoa →
  ∃ j l0, l0 ∈ aoa ∧ (j < length l0)%nat ∧
    min_sd np_std sd_lt aoa
    = Return (Some ((λ l : list Z,
                       match l !! j with Some z => Some z | None => last l end)
                    <$> aoa)).
Proof. apply min_sd_column. Qed.

Lemma min_sd_reads_one_column_witness :
  ∃ j l0, l0 ∈ [[4; 70; 9]; []; [5; 17]] ∧ (j < length l0)%nat ∧
    min_sd exact_spread Z.ltb [[4; 70; 9]; []; [5; 17]]
    = Return (Some ((λ l : list Z,
                       match l !! j with Some z => Some z | None => last l end)
                    <$> [[4; 70; 9]; []; [5; 17]])).
Proof.
  apply (min_sd_reads_one_column exact_spread Z.ltb [[4; 70; 9]; []; [5; 17]]).
  apply Exists_cons_hd. discriminate.
Defined.

(** X8. What each answer of [alligner] means: it raises only for an empty
    list of members, and then [TypeError]; it returns [None] exactly when
    some member has no peak; otherwise it returns an assignment with one
    value per member. *)
Theorem alligner_outcomes {sdval} (np_std : list (option Z) → sdval)
    (sd_lt : sdval → sdval → bool) (aoa : list (list Z)) :
  match alligner np_std sd_lt aoa with
  | Return None => Exists (λ l, l = []) aoa
  | Return (Some r) =>
      aoa ≠ [] ∧ Forall (λ l, l ≠ []) aoa ∧ length r = length aoa
  | Raise e => aoa = [] ∧ e = TypeError
  | OutOfFuel => False
  end.
Proof.
  destruct (decide (aoa = [])) as [->|Haoa]; [by vm_compute|].
  destruct (decide (Forall (λ l : list Z, l ≠ []) aoa)) as [Hne|Hex].
  - destruct (alligner_returns np_std sd_lt aoa Haoa Hne) as [r Hr].
    rewrite Hr. split; [done|]. split; [done|].
    by destruct (alligner_result_selects np_std sd_lt aoa r Hne Hr).
  - unfold alligner. rewrite alligner_empty_member by done.
    apply not_Forall_Exists in Hex; [|apply _].
    eapply Exists_impl; [exact Hex|]. simpl. intros l Hl.
    by destruct (decide (l = [])).
Qed.
(** * Further properties: building a complex *)

Lemma imap_pair_snd {A} (l : list A) : (imap pair l).*2 = l.
Proof.
  apply list_eq. intros i.
  rewrite list_lookup_fmap, list_lookup_imap. by destruct (l !! i).
Qed.

Lemma filter_filter_absorb {A} (P Q : A → Prop) `{!∀ x, Decision (P x)}
    `{!∀ x, Decision (Q x)} (l : list A) :
  (∀ x, P x → Q x) → filter P (filter Q l) = filter P l.
Proof.
  intros HPQ. induction l as [|x l IH]; [done|].
  rewrite (filter_cons Q). destruct (decide (Q x)) as [HQ|HQ].
  - rewrite !filter_cons. destruct (decide (P x)); by rewrite IH.
  - rewrite IH, filter_cons. destruct (decide (P x)) as [HP|]; [|done].
    by apply HPQ in HP.
Qed.

Lemma elem_of_first_occurrences (a : string) (l : list string) :
  a ∈ first_occurrences l ↔ a ∈ l.
Proof.
  induction l as [|b l IH]; simpl; [done|].
  rewrite !elem_of_cons, list_elem_of_filter, IH.
  destruct (decide (a = b)) as [->|Hne]; [by split; left|].
  split; [intros [?|[_ ?]]; [done|by right]|intros [?|?]; [done|by right]].
Qed.

Lemma first_occurrences_NoDup (l : list string) : NoDup (first_occurrences l).
Proof.
  induction l as [|a l IH]; simpl; [constructor|].
  apply NoDup_cons. split.
  - rewrite list_elem_of_filter. by intros [Hne _].
  - by apply NoDup_filter.
Qed.

Section FormatHashFacts.
Context {float : Type}.
Variable float_of_string : string → outcome float.
Variable peak_picking : list float → list Q.
Variable FT : list string.
Implicit Types (tmp c : ComplexProfile float) (l : list (nat * string)).

Local Abbreviation parse :=
  (for_each (λ xs x, v ←! float_of_string x; Return (xs ++ [v]))).
Local Abbreviation add_new :=
  (λ tmp '(idx, acc),
     if bool_decide (acc ∈ get_members tmp) then Return tmp
     else
       match FT !! idx with
       | None => Raise IndexError
       | Some s =>
           xs ←! parse [] (str_split comma_char s);
           Return (add_member tmp (calc_peaks peak_picking (new_protein acc xs)))
       end).

(** [float] on every field, in turn. *)
Lemma parse_all (fields : list string) (xs : list float) :
  (∀ x, x ∈ fields → ∃ v, float_of_string x = Return v) →
  ∃ vs, parse xs fields = Return (xs ++ vs)
        ∧ Forall2 (λ x v, float_of_string x = Return v) fields vs.
Proof.
  revert xs. induction fields as [|x fields IH]; intros xs Hall; simpl.
  - exists []. by rewrite app_nil_r.
  - destruct (Hall x) as [v Hv]; [by left|]. rewrite Hv. simpl.
    destruct (IH (xs ++ [v])) as (vs & -> & Hvs).
    { intros y Hy. apply Hall. by right. }
    exists (v :: vs). rewrite <- app_assoc. split; [done|]. by constructor.
Qed.

(** One turn of the loop of [format_hash]. *)
Lemma add_new_step tmp (idx : nat) (a : string) l :
  for_each add_new tmp ((idx, a) :: l)
  = if bool_decide (a ∈ get_members tmp) then for_each add_new tmp l
    else match FT !! idx with
         | None => Raise IndexError
         | Some s =>
             obind (parse [] (str_split comma_char s))
               (λ xs, for_each add_new
                        (add_member tmp (calc_peaks peak_picking (new_protein a xs))) l)
         end.
Proof.
  simpl. case_bool_decide; [done|]. destruct (FT !! idx) as [s|]; [|done].
  simpl. by destruct (parse [] (str_split comma_char s)).
Qed.

(** What the loop of [format_hash] adds to a complex under construction:
    the accessions that are new, each once and where it comes first, with
    the intensities found at that place. *)
Lemma format_hash_loop l tmp :
  Forall (λ ia : nat * string,
            ∃ s, FT !! ia.1 = Some s
                 ∧ ∀ x, x ∈ str_split comma_char s →
                        ∃ v, float_of_string x = Return v) l →
  ∃ c new,
    for_each add_new tmp l = Return c ∧
    members c = members tmp ++ new ∧
    name c = name tmp ∧ pks c = pks tmp ∧ pks_ali c = pks_ali tmp ∧
    acc <$> new
    = filter (λ a, a ∉ get_members tmp) (first_occurrences l.*2) ∧
    Forall (λ p, (acc p ∉ get_members tmp) ∧
              (∃ k idx s,
                 l !! k = Some (idx, acc p)
                 ∧ (∀ j ia, (j < k)%nat → l !! j = Some ia → ia.2 ≠ acc p)
                 ∧ FT !! idx = Some s
                 ∧ Forall2 (λ x v, float_of_string x = Return v)
                     (str_split comma_char s) (inten p)
                 ∧ peaks p = int_of_number <$> peak_picking (inten p))) new.
Proof.
  intros Hall. revert tmp.
  induction Hall as [|[idx a] l (s & Hs & Hparse) _ IH]; intros tmp.
  - exists tmp, []. rewrite app_nil_r. by repeat split.
  - cbn [fst] in Hs. rewrite add_new_step, fmap_cons.
    cbn [snd first_occurrences]. rewrite filter_cons.
    case_bool_decide as Hin.
    + rewrite decide_False by (by intros Hn).
      destruct (IH tmp) as (c & new & Hrun & Hmem & Hname & Hpks & Hali & Hacc & Hnew).
      exists c, new. split; [exact Hrun|]. split; [done|]. split; [done|].
      split; [done|]. split; [done|]. split.
      * rewrite Hacc. symmetry. apply filter_filter_absorb. by intros b Hb ->.
      * eapply Forall_impl; [exact Hnew|]. cbv beta.
        intros p (Hp & k & idx' & s' & Hk & Hfirst & Hrest). split; [done|].
        exists (S k), idx', s'. split; [done|]. split; [|done].
        intros [|j] ia Hj; cbn [lookup list_lookup].
        -- intros [= <-]. cbn [snd]. by intros ->.
        -- apply Hfirst. lia.
    + rewrite decide_True by done. rewrite Hs.
      destruct (parse_all (str_split comma_char s) [] Hparse) as (xs & Hxs & Hfields).
      rewrite app_nil_l in Hxs. rewrite Hxs. cbn [obind].
      destruct (IH (add_member tmp (calc_peaks peak_picking (new_protein a xs))))
        as (c & new & Hrun & Hmem & Hname & Hpks & Hali & Hacc & Hnew).
      exists c, (calc_peaks peak_picking (new_protein a xs) :: new).
      split; [exact Hrun|].
      cbn [members add_member set_members] in Hmem.
      rewrite <- app_assoc in Hmem. cbn [app] in Hmem.
      split; [done|]. split; [done|]. split; [done|]. split; [done|]. split.
      * rewrite fmap_cons. cbn [acc calc_peaks set_peaks new_protein]. f_equal.
        rewrite Hacc, list_filter_filter. apply list_filter_iff. intros b.
        unfold get_members, add_member. simpl.
        rewrite fmap_app, elem_of_app. simpl.
        rewrite list_elem_of_singleton. tauto.
      * constructor.
        -- split; [done|]. exists 0%nat, idx, s. split; [done|].
           split; [intros; lia|]. split; [done|]. by split.
        -- eapply Forall_impl; [exact Hnew|]. cbv beta.
           intros p (Hp & k & idx' & s' & Hk & Hfirst & Hrest).
           unfold get_members, add_member in Hp. simpl in Hp.
           rewrite fmap_app, elem_of_app in Hp. simpl in Hp.
           rewrite list_elem_of_singleton in Hp.
           split; [tauto|].
           exists (S k), idx', s'. split; [done|]. split; [|done].
           intros [|j] ia Hj; cbn [lookup list_lookup].
           ++ intros [= <-]. cbn [snd]. intros ->. tauto.
           ++ apply Hfirst. lia.
Qed.

(** Distinct new accessions, more of them than intensity vectors: the
    loop does not come to its end. *)
Lemma format_hash_loop_short (n : nat) (rest : list string) tmp :
  NoDup rest → (∀ a, a ∈ rest → a ∉ get_members tmp) →
  (n ≤ length FT)%nat → (length FT < n + length rest)%nat →
  (∀ c, for_each add_new tmp (imap (λ i x, ((n + i)%nat, x)) rest) ≠ Return c)
  ∧ ((∀ s x, s ∈ FT → x ∈ str_split comma_char s →
             ∃ v, float_of_string x = Return v) →
     for_each add_new tmp (imap (λ i x, ((n + i)%nat, x)) rest)
     = Raise IndexError).
Proof.
  intros Hnd. revert n tmp.
  induction Hnd as [|a rest Ha Hnd IH]; intros n tmp Hfresh Hn Hlen;
    [simpl in Hlen; lia|].
  rewrite imap_cons, add_new_step, Nat.add_0_r.
  rewrite bool_decide_eq_false_2 by (apply Hfresh; by left).
  assert (imap ((λ i x, ((n + i)%nat, x)) ∘ S) rest
          = imap (λ i x, ((S n + i)%nat, x)) rest) as ->.
  { apply imap_ext. intros i x _. simpl. f_equal. lia. }
  destruct (FT !! n) as [s|] eqn:Hlook; [|by split].
  assert (∀ xs,
            ∀ b, b ∈ rest →
                 b ∉ get_members
                       (add_member tmp (calc_peaks peak_picking (new_protein a xs))))
    as Hfresh'.
  { intros xs b Hb. unfold get_members, add_member. simpl.
    rewrite fmap_app, elem_of_app. simpl. rewrite list_elem_of_singleton.
    intros [Hin| ->]; [|done]. apply (Hfresh b); [by right|done]. }
  pose proof (lookup_lt_Some _ _ _ Hlook) as Hlt. simpl in Hlen.
  destruct (parse [] (str_split comma_char s)) as [xs|e|] eqn:Hxs; cbn [obind].
  - apply IH; [apply Hfresh'|lia|lia].
  - split; [done|]. intros Hall.
    destruct (parse_all (str_split comma_char s) []) as (vs & Hvs & _).
    { intros x Hx. eapply Hall; [|exact Hx]. by eapply list_elem_of_lookup_2. }
    congruence.
  - split; [done|]. intros Hall.
    destruct (parse_all (str_split comma_char s) []) as (vs & Hvs & _).
    { intros x Hx. eapply Hall; [|exact Hx]. by eapply list_elem_of_lookup_2. }
    congruence.
Qed.
End FormatHashFacts.

(** X9. Given an intensity vector for every listed accession, with
    fields that [float] reads, [format_hash] returns a complex named by
    the record whose members are the listed accessions, each once, in
    the order of their first occurrence; a member has the intensities
    found at the place where its accession comes first, and the peaks
    that the detector finds on them; nothing is aligned yet. *)
Theorem format_hash_keeps_each_accession_once {float}
    (float_of_string : string → outcome float)
    (peak_picking : list float → list Q) (temp : gmap string string)
    (ft mb id : string) :
  temp !! "FT" = Some ft → temp !! "MB" = Some mb → temp !! "ID" = Some id →
  (length (str_split hash_char mb) ≤ length (str_split hash_char ft))%nat →
  (∀ s x, s ∈ str_split hash_char ft → x ∈ str_split comma_char s →
          ∃ v, float_of_string x = Return v) →
  ∃ c, format_hash float_of_string peak_picking temp = Return c ∧
       name c = id ∧ pks c = [] ∧ pks_ali c = EmptyList ∧
       get_members c = first_occurrences (str_split hash_char mb) ∧
       NoDup (get_members c) ∧
       Forall (λ p, ∃ i s,
                 str_split hash_char mb !! i = Some (acc p)
                 ∧ (∀ j, (j < i)%nat → str_split hash_char mb !! j ≠ Some (acc p))
                 ∧ str_split hash_char ft !! i = Some s
                 ∧ Forall2 (λ x v, float_of_string x = Return v)
                     (str_split comma_char s) (inten p)
                 ∧ peaks p = int_of_number <$> peak_picking (inten p))
         (members c).
Proof.
  intros Hft Hmb Hid Hlen Hparse.
  destruct (format_hash_loop float_of_string peak_picking (str_split hash_char ft)
              (imap pair (str_split hash_char mb)) (new_complex id))
    as (c & new & Hrun & Hmem & Hname & Hpks & Hali & Hacc & Hnew).
  { apply Forall_lookup. intros i [j a]. rewrite list_lookup_imap.
    destruct (str_split hash_char mb !! i) as [a'|] eqn:Hi; [|done].
    intros [= <- <-]. apply lookup_lt_Some in Hi.
    destruct (lookup_lt_is_Some_2 (str_split hash_char ft) i) as [s0 Hs]; [lia|].
    exists s0. split; [done|]. intros x Hx. eapply Hparse; [|exact Hx].
    by eapply list_elem_of_lookup_2. }
  rewrite imap_pair_snd in Hacc. cbn [members new_complex app] in Hmem.
  assert (get_members c = first_occurrences (str_split hash_char mb)) as Hget.
  { unfold get_members. rewrite Hmem, Hacc. apply filter_all.
    apply Forall_forall. intros a _. apply not_elem_of_nil. }
  exists c. split.
  { unfold format_hash, dict_get. rewrite Hft, Hmb, Hid. exact Hrun. }
  split; [done|]. split; [done|]. split; [done|]. split; [done|]. split.
  { rewrite Hget. apply first_occurrences_NoDup. }
  rewrite Hmem. eapply Forall_impl; [exact Hnew|]. cbv beta.
  intros p (_ & k & idx & s & Hk & Hfirst & Hs & Hrest).
  rewrite list_lookup_imap in Hk.
  destruct (str_split hash_char mb !! k) as [a|] eqn:Ha; [|done].
  simpl in Hk. injection Hk as <- Hap. rewrite Hap in Ha.
  exists k, s. split; [done|]. split; [|done].
  intros j Hj Hmbj.
  assert (imap pair (str_split hash_char mb) !! j = Some (j, acc p)) as Hl
    by by rewrite list_lookup_imap, Hmbj.
  by apply (Hfirst j (j, acc p) Hj Hl).
Qed.

Lemma format_hash_keeps_each_accession_once_witness :
  ∃ c, sym_format_hash
         (py_dict [("ID", "X"); ("MB", "A#B#A"); ("FT", "0,5,0#0,0,5#1,2,3")])
       = Return c ∧
       name c = "X" ∧ pks c = [] ∧ pks_ali c = EmptyList ∧
       get_members c = first_occurrences (str_split hash_char "A#B#A") ∧
       NoDup (get_members c) ∧
       Forall (λ p, ∃ i s,
                 str_split hash_char "A#B#A" !! i = Some (acc p)
                 ∧ (∀ j, (j < i)%nat → str_split hash_char "A#B#A" !! j ≠ Some (acc p))
                 ∧ str_split hash_char "0,5,0#0,0,5#1,2,3" !! i = Some s
                 ∧ Forall2 (λ x v, sym_float_of_string x = Return v)
                     (str_split comma_char s) (inten p)
                 ∧ peaks p = int_of_number <$> twice_three (inten p))
         (members c).
Proof.
  apply (format_hash_keeps_each_accession_once sym_float_of_string twice_three
           (py_dict [("ID", "X"); ("MB", "A#B#A"); ("FT", "0,5,0#0,0,5#1,2,3")])
           "0,5,0#0,0,5#1,2,3" "A#B#A" "X").
  - by vm_compute.
  - by vm_compute.
  - by vm_compute.
  - vm_compute. lia.
  - intros s x Hs Hx.
    assert (Forall (λ s, Forall (λ x, ∃ v, sym_float_of_string x = Return v)
                           (str_split comma_char s))
              (str_split hash_char "0,5,0#0,0,5#1,2,3")) as Hall.
    { repeat (constructor; [repeat (constructor; [by eexists|]); constructor|]).
      constructor. }
    eapply Forall_forall in Hall; [|exact Hs].
    eapply Forall_forall in Hall; [exact Hall|exact Hx].
Defined.

(** X10. When the record lists distinct accessions and brings fewer
    intensity vectors than accessions, [format_hash] does not return a
    complex; it raises [IndexError] when [float] reads every field of
    the vectors that are there, and otherwise the error of the first
    field that [float] refuses may come before. *)
Theorem format_hash_missing_intensities {float}
    (float_of_string : string → outcome float)
    (peak_picking : list float → list Q) (temp : gmap string string)
    (ft mb id : string) :
  temp !! "FT" = Some ft → temp !! "MB" = Some mb → temp !! "ID" = Some id →
  NoDup (str_split hash_char mb) →
  (length (str_split hash_char ft) < length (str_split hash_char mb))%nat →
  (∀ c, format_hash float_of_string peak_picking temp ≠ Return c)
  ∧ ((∀ s x, s ∈ str_split hash_char ft → x ∈ str_split comma_char s →
             ∃ v, float_of_string x = Return v) →
     format_hash float_of_string peak_picking temp = Raise IndexError).
Proof.
  intros Hft Hmb Hid Hnd Hlen. unfold format_hash, dict_get.
  rewrite Hft, Hmb, Hid. cbn [obind].
  assert (imap pair (str_split hash_char mb)
          = imap (λ i x, ((0 + i)%nat, x)) (str_split hash_char mb)) as -> by done.
  apply format_hash_loop_short; [done| |lia|lia].
  intros a _. apply not_elem_of_nil.
Qed.

Lemma format_hash_missing_intensities_witness :
  (∀ c, sym_format_hash
          (py_dict [("ID", "X"); ("MB", "A#B#C"); ("FT", "0,5,0#0,0,5")])
        ≠ Return c)
  ∧ ((∀ s x, s ∈ str_split hash_char "0,5,0#0,0,5" → x ∈ str_split comma_char s →
             ∃ v, sym_float_of_string x = Return v) →
     sym_format_hash
       (py_dict [("ID", "X"); ("MB", "A#B#C"); ("FT", "0,5,0#0,0,5")])
     = Raise IndexError).
Proof.
  apply (format_hash_missing_intensities sym_float_of_string twice_three
           (py_dict [("ID", "X"); ("MB", "A#B#C"); ("FT", "0,5,0#0,0,5")])
           "0,5,0#0,0,5" "A#B#C" "X").
  - by vm_compute.
  - by vm_compute.
  - by vm_compute.
  - apply (bool_decide_unpack _). vm_compute. exact I.
  - vm_compute. lia.
Defined.

(** * Further properties: after the alignment *)

Section Aligned.
Context {float sdval : Type}.
Variable np_std : list (option Z) → sdval.
Variable sd_lt : sdval → sdval → bool.
Variable medi : option (list (option Z)) → outcome float.
Variable py_round : float → outcome Z.
Implicit Types (p : ProteinProfile float) (c : ComplexProfile float).

(** A successful alignment touches [pks_ali] and [pks] only, and leaves
    an integer for every member. *)
Lemma aligned_state c c' :
  NoDup (get_members c) →
  align_peaks np_std sd_lt medi py_round c = Return (c', Some true) →
  ∃ d, pks_ali c' = Dict d ∧
       members c' = members c ∧ name c' = name c ∧
       width c' = width c ∧ cor c' = cor c ∧
       for_each (format_pks d) (pks c) (members c) = Return (pks c') ∧
       Forall (λ p, ∃ z, d !! acc p = Some (PyInt z)) (members c).
Proof.
  intros Hnd Hal.
  destruct (align_peaks_true_inv _ _ _ _ _ _ Hnd Hal)
    as (selected & m & md & Hsel & Hown & Hm & Hmd & Hmem & Hd).
  pose proof (Forall2_length _ _ _ Hown) as Hlen.
  destruct (consensus_dict c selected md Hnd Hlen) as (_ & Hwith & Hwithout).
  eexists. split; [exact Hd|].
  assert (Forall (λ p, ∃ z, (py_dict (zip (acc <$> with_peaks c) (PyInt <$> selected))
              ∪ py_dict (zip (acc <$> without_peaks c)
                   (replicate (length (acc <$> without_peaks c)) (PyInt md))))
              !! acc p = Some (PyInt z)) (members c)) as Hall.
  { apply Forall_forall. intros p Hp.
    destruct (decide (peaks p = [])) as [Hpk|Hpk].
    - eapply Forall_forall in Hwithout; [by eexists|].
      by apply list_elem_of_filter.
    - assert (p ∈ with_peaks c) as [i Hi]%list_elem_of_lookup
        by by apply list_elem_of_filter.
      destruct (Forall2_lookup_l _ _ _ _ _ Hwith Hi) as (z & _ & Hz).
      by eexists. }
  split; [done|].
  revert Hal. unfold align_peaks, get_members in *.
  rewrite nan_members_spec. simpl.
  rewrite pres_spec, mb_pres_spec by done.
  fold (with_peaks c) (without_peaks c).
  case_bool_decide as Hmiss; [done|].
  rewrite Hsel. simpl. rewrite Hm. simpl. rewrite Hmd. simpl.
  rewrite <- list_fmap_compose.
  destruct (for_each _ _ _) as [pks'| |] eqn:Hpks; [|done..]. simpl.
  intros [= <-]. simpl. repeat split; try done.
Qed.

Lemma dict_set_fresh {V} (d : list (string * V)) k v :
  k ∉ d.*1 → dict_set d k v = d ++ [(k, v)].
Proof.
  induction d as [|[k' v'] d IH]; simpl; [done|]. intros Hk.
  rewrite bool_decide_eq_false_2.
  - rewrite IH; [done|]. intros Hin. apply Hk. by right.
  - intros ->. apply Hk. by left.
Qed.

(** The loop over the members writes one entry per member, in order. *)
Lemma for_each_format_pks_rows (d : gmap string pyval) (ms : list (ProteinProfile float))
    (pks0 : list (string * string)) (sels : list pyval) :
  NoDup (pks0.*1 ++ (acc <$> ms)) →
  Forall2 (λ p sel, d !! acc p = Some sel) ms sels →
  for_each (format_pks d) pks0 ms
  = Return (pks0 ++ zip_with (λ p sel,
              (acc p, match peaks p with
                      | [] => py_str sel
                      | _ :: _ => join "#" (pretty <$> peaks p)
                      end +:+ tab +:+ py_str sel)) ms sels).
Proof.
  intros Hnd Hsel. revert pks0 Hnd.
  induction Hsel as [|p sel ms sels Hp _ IH]; intros pks0 Hnd; simpl.
  - by rewrite app_nil_r.
  - unfold format_pks at 1. rewrite Hp. simpl.
    rewrite dict_set_fresh.
    2:{ apply NoDup_app in Hnd as (_ & Hdis & _). intros Hin.
        apply (Hdis _ Hin). by left. }
    rewrite IH.
    + by rewrite <- app_assoc.
    + rewrite fmap_app, <- app_assoc. exact Hnd.
Qed.
End Aligned.

Lemma median_returns (xs : list Z) : xs ≠ [] → ∃ x, median xs = Return x.
Proof.
  intros Hne. unfold median.
  assert (length (merge_sort Z.le xs) = length xs) as Hlen
    by by rewrite merge_sort_Permutation.
  assert (0 < length xs)%nat as Hpos by (destruct xs; [done|simpl; lia]).
  rewrite Hlen.
  destruct (lookup_lt_is_Some_2 (merge_sort Z.le xs) (length xs / 2)) as [hi ->].
  { rewrite Hlen. apply Nat.div_lt; lia. }
  destruct (Nat.even (length xs)); [|by eexists].
  destruct (lookup_lt_is_Some_2 (merge_sort Z.le xs) (length xs / 2 - 1)) as [lo ->];
    [|by eexists].
  rewrite Hlen. pose proof (Nat.div_lt (length xs) 2). lia.
Qed.

Lemma sym_medi_returns (selected : list Z) :
  selected ≠ [] →
  ∃ m md, sym_medi (Some (Some <$> selected)) = Return m ∧ sym_round m = Return md.
Proof.
  intros Hne. unfold sym_medi.
  assert (mapM id (Some <$> selected) = Some selected) as ->.
  { clear Hne. induction selected as [|z l IH]; [done|].
    rewrite fmap_cons. simpl. by rewrite IH. }
  destruct (median_returns selected Hne) as [x ->]. simpl. by eexists _, _.
Qed.

(** X11. [align_peaks] returns [True] on every complex with distinct
    accessions in which some member has a peak, provided the median of the
    selected peaks is returned and can be rounded. *)
Theorem alignment_succeeds_with_one_peak {float sdval}
    (np_std : list (option Z) → sdval) (sd_lt : sdval → sdval → bool)
    (medi : option (list (option Z)) → outcome float)
    (py_round : float → outcome Z) (c : ComplexProfile float) :
  NoDup (get_members c) → with_peaks c ≠ [] →
  (∀ selected, length selected = length (with_peaks c) →
     ∃ m md, medi (Some (Some <$> selected)) = Return m ∧ py_round m = Return md) →
  ∃ c', align_peaks np_std sd_lt medi py_round c = Return (c', Some true).
Proof. apply align_peaks_succeeds. Qed.

Lemma alignment_succeeds_with_one_peak_witness :
  ∃ c', align_peaks exact_spread Z.ltb sym_medi sym_round trio
        = Return (c', Some true).
Proof.
  apply (alignment_succeeds_with_one_peak exact_spread Z.ltb sym_medi sym_round trio).
  - apply (bool_decide_unpack _). vm_compute. exact I.
  - vm_compute. discriminate.
  - intros selected Hlen. apply sym_medi_returns.
    intros ->. vm_compute in Hlen. discriminate.
Defined.

(** X12. After a successful alignment of a complex with distinct
    accessions and no rows yet, [get_peaks] yields exactly one row per
    member, in the order of the members: accession, name of the complex,
    detected peaks (or the imputed value) and the value kept in [pks_ali];
    members, name, [width] and [cor] are as before. *)
Theorem aligned_complex_has_one_row_per_member {float sdval}
    (np_std : list (option Z) → sdval) (sd_lt : sdval → sdval → bool)
    (medi : option (list (option Z)) → outcome float)
    (py_round : float → outcome Z) (c c' : ComplexProfile float) :
  NoDup (get_members c) → pks c = [] →
  align_peaks np_std sd_lt medi py_round c = Return (c', Some true) →
  members c' = members c ∧ name c' = name c ∧
  width c' = width c ∧ cor c' = cor c ∧
  length (get_peaks c') = length (members c) ∧
  Forall2 (λ p row, ∃ z, pks_ali_get (pks_ali c') (acc p) = Return (PyInt z) ∧
                         row = annotation_row (name c) p (PyInt z))
    (members c) (get_peaks c').
Proof.
  intros Hnd Hpks Hal.
  destruct (aligned_state _ _ _ _ _ _ Hnd Hal)
    as (d & Hd & Hmem & Hname & Hwidth & Hcor & Hrows & Hint).
  assert (∃ zs, Forall2 (λ p z, d !! acc p = Some (PyInt z)) (members c) zs)
    as [zs Hzs].
  { clear -Hint. induction Hint as [|p ms [z Hz] _ [zs IH]].
    - by exists [].
    - exists (z :: zs). by constructor. }
  rewrite (for_each_format_pks_rows d (members c) (pks c) (PyInt <$> zs)) in Hrows.
  2:{ by rewrite Hpks. }
  2:{ by apply Forall2_fmap_r. }
  injection Hrows as Hrows. rewrite Hpks in Hrows. simpl in Hrows.
  assert (Forall2 (λ p row, ∃ z, pks_ali_get (pks_ali c') (acc p) = Return (PyInt z) ∧
                     row = annotation_row (name c) p (PyInt z))
            (members c) (get_peaks c')) as Hall.
  { unfold get_peaks. rewrite <- Hrows, Hname, Hd. clear -Hzs.
    induction Hzs as [|p z ms zs Hz _ IH]; simpl; constructor; [|done].
    exists z. by rewrite Hz. }
  repeat split; try done. symmetry. by eapply Forall2_length.
Qed.

Lemma aligned_complex_has_one_row_per_member_witness :
  members trio_aligned = members trio ∧ name trio_aligned = name trio ∧
  width trio_aligned = width trio ∧ cor trio_aligned = cor trio ∧
  length (get_peaks trio_aligned) = length (members trio) ∧
  Forall2 (λ p row, ∃ z, pks_ali_get (pks_ali trio_aligned) (acc p)
                           = Return (PyInt z) ∧
                         row = annotation_row (name trio) p (PyInt z))
    (members trio) (get_peaks trio_aligned).
Proof.
  apply (aligned_complex_has_one_row_per_member
           exact_spread Z.ltb sym_medi sym_round trio trio_aligned).
  - apply (bool_decide_unpack _). vm_compute. exact I.
  - reflexivity.
  - vm_compute. reflexivity.
Defined.

Section WidthAfterAlignment.
Context {float : Type}.
Variable fwhm : list float → outcome float.
Variable np_mean : list float → float.
Implicit Types (p : ProteinProfile float) (c : ComplexProfile float).

(** The loop of [calc_width] over members that all have an integer, on
    whose windows [fwhm] returns. *)
Lemma calc_width_loop (a : pks_ali_t) (ms : list (ProteinProfile float))
    (width0 : list float) :
  Forall (λ p, ∃ z, pks_ali_get a (acc p) = Return (PyInt z)
                    ∧ ∃ w, fwhm (prot_peak p z) = Return w) ms →
  ∃ ws,
    for_each
      (λ width prot,
         v ←! pks_ali_get a (acc prot);
         peak ←! py_int v;
         prot_fwhm ←! fwhm (prot_peak prot peak);
         Return (width ++ [prot_fwhm]))
      width0 ms = Return (width0 ++ ws) ∧
    Forall2 (λ p w, ∃ z, pks_ali_get a (acc p) = Return (PyInt z) ∧
                         fwhm (prot_peak p z) = Return w) ms ws.
Proof.
  intros Hall. revert width0.
  induction Hall as [|p ms (z & Hz & w & Hw) _ IH]; intros width0; simpl.
  - exists []. by rewrite app_nil_r.
  - rewrite Hz. simpl. rewrite Hw. simpl.
    destruct (IH (width0 ++ [w])) as (ws & -> & Hws).
    exists (w :: ws). rewrite <- app_assoc. split; [done|].
    constructor; [by exists z|done].
Qed.

(** The first member stops [calc_width] when its value is no integer. *)
Lemma calc_width_stops (c : ComplexProfile float) p ms (e : exn) :
  members c = p :: ms →
  (v ←! pks_ali_get (pks_ali c) (acc p); py_int v) = Raise e →
  calc_width fwhm np_mean c = Raise e.
Proof.
  intros Hmem Hp. unfold calc_width. rewrite Hmem. simpl.
  destruct (pks_ali_get (pks_ali c) (acc p)) as [v| |]; simpl in *;
    [|by injection Hp as ->|done].
  destruct (py_int v); simpl in *; [done|by injection Hp as ->|done].
Qed.
End WidthAfterAlignment.

(** X13. After a successful alignment of a complex with distinct
    accessions, [calc_width] finds an integer consensus peak for every
    member: when [fwhm] returns on the window around each member's
    consensus peak, the width is the mean of exactly one FWHM value per
    member, each taken on that window. *)
Theorem width_after_alignment {float sdval}
    (np_std : list (option Z) → sdval) (sd_lt : sdval → sdval → bool)
    (medi : option (list (option Z)) → outcome float)
    (py_round : float → outcome Z)
    (fwhm : list float → outcome float) (np_mean : list float → float)
    (c c' : ComplexProfile float) :
  NoDup (get_members c) →
  align_peaks np_std sd_lt medi py_round c = Return (c', Some true) →
  (∀ p z, p ∈ members c' →
          pks_ali_get (pks_ali c') (acc p) = Return (PyInt z) →
          ∃ w, fwhm (prot_peak p z) = Return w) →
  ∃ ws, calc_width fwhm np_mean c' = Return (set_width c' (Some (np_mean ws))) ∧
        Forall2 (λ p w, ∃ z, pks_ali_get (pks_ali c') (acc p) = Return (PyInt z) ∧
                             fwhm (prot_peak p z) = Return w)
          (members c') ws.
Proof.
  intros Hnd Hal Hfwhm.
  destruct (aligned_state _ _ _ _ _ _ Hnd Hal)
    as (d & Hd & Hmem & _ & _ & _ & _ & Hint).
  destruct (calc_width_loop fwhm (pks_ali c') (members c') []) as (ws & Hrun & Hws).
  { apply Forall_forall. intros p Hp.
    rewrite Hmem in Hp. eapply Forall_forall in Hint as [z Hz]; [|exact Hp].
    assert (pks_ali_get (pks_ali c') (acc p) = Return (PyInt z)) as Hget.
    { rewrite Hd. simpl. by rewrite Hz. }
    exists z. split; [done|]. apply Hfwhm; [by rewrite Hmem|done]. }
  exists ws. split; [|done]. unfold calc_width. by rewrite Hrun.
Qed.

Lemma width_after_alignment_witness :
  ∃ ws, calc_width sym_fwhm SMean trio_aligned
          = Return (set_width trio_aligned (Some (SMean ws))) ∧
        Forall2 (λ p w, ∃ z, pks_ali_get (pks_ali trio_aligned) (acc p)
                               = Return (PyInt z) ∧
                             sym_fwhm (prot_peak p z) = Return w)
          (members trio_aligned) ws.
Proof.
  apply (width_after_alignment exact_spread Z.ltb sym_medi sym_round
           sym_fwhm SMean trio trio_aligned).
  - apply (bool_decide_unpack _). vm_compute. exact I.
  - vm_compute. reflexivity.
  - intros p z _ _. by eexists.
Defined.

(** X14. [calc_width] needs an aligned complex: on a complex with a
    member it raises [TypeError] while [pks_ali] is still the empty list,
    and [ValueError] after [align_peaks] has marked a complex without
    peaks with NaN. *)
Theorem width_needs_alignment {float sdval}
    (np_std : list (option Z) → sdval) (sd_lt : sdval → sdval → bool)
    (medi : option (list (option Z)) → outcome float)
    (py_round : float → outcome Z)
    (fwhm : list float → outcome float) (np_mean : list float → float)
    (c : ComplexProfile float) :
  members c ≠ [] →
  (pks_ali c = EmptyList → calc_width fwhm np_mean c = Raise TypeError) ∧
  (Forall (λ p, peaks p = []) (members c) →
   ∃ c', align_peaks np_std sd_lt medi py_round c = Return (c', None) ∧
         calc_width fwhm np_mean c' = Raise ValueError).
Proof.
  intros Hne. destruct (members c) as [|p ms] eqn:Hmem; [done|]. split.
  - intros Hali. eapply calc_width_stops; [exact Hmem|]. by rewrite Hali.
  - intros Hall. rewrite <- Hmem in Hall.
    eexists. split; [by apply align_peaks_all_missing|].
    eapply calc_width_stops; [exact Hmem|]. simpl.
    rewrite py_dict_zip_replicate; [done|].
    unfold get_members. rewrite Hmem. by left.
Qed.

Lemma width_needs_alignment_witness :
  (pks_ali peakless = EmptyList →
   calc_width sym_fwhm SMean peakless = Raise TypeError) ∧
  (Forall (λ p, peaks p = []) (members peakless) →
   ∃ c', align_peaks exact_spread Z.ltb sym_medi sym_round peakless
           = Return (c', None) ∧
         calc_width sym_fwhm SMean c' = Raise ValueError).
Proof.
  apply (width_needs_alignment exact_spread Z.ltb sym_medi sym_round
           sym_fwhm SMean peakless).
  discriminate.
Defined.

(** X15. [calc_shift] after a successful alignment of a complex with
    distinct accessions: for any two members it appends the distance
    between their consensus peaks, a non-negative integer, the same
    whichever member is named first, and it does not raise. *)
Theorem shift_after_alignment {float sdval}
    (np_std : list (option Z) → sdval) (sd_lt : sdval → sdval → bool)
    (medi : option (list (option Z)) → outcome float)
    (py_round : float → outcome Z)
    (c c' : ComplexProfile float) (p1 p2 : ProteinProfile float)
    (shifts : list pyval) :
  NoDup (get_members c) →
  align_peaks np_std sd_lt medi py_round c = Return (c', Some true) →
  p1 ∈ members c → p2 ∈ members c →
  ∃ z1 z2,
    pks_ali_get (pks_ali c') (acc p1) = Return (PyInt z1) ∧
    pks_ali_get (pks_ali c') (acc p2) = Return (PyInt z2) ∧
    0 ≤ Z.abs (z1 - z2) ∧
    calc_shift c' shifts (acc p1, acc p2)
      = Return (shifts ++ [PyInt (Z.abs (z1 - z2))]) ∧
    calc_shift c' shifts (acc p2, acc p1)
      = Return (shifts ++ [PyInt (Z.abs (z1 - z2))]).
Proof.
  intros Hnd Hal H1 H2.
  destruct (aligned_state _ _ _ _ _ _ Hnd Hal)
    as (d & Hd & _ & _ & _ & _ & _ & Hint).
  pose proof Hint as Hint2.
  eapply Forall_forall in Hint as [z1 Hz1]; [|exact H1].
  eapply Forall_forall in Hint2 as [z2 Hz2]; [|exact H2].
  exists z1, z2. unfold calc_shift. rewrite Hd. simpl. rewrite Hz1, Hz2. simpl.
  repeat split; try done; try lia.
  by replace (Z.abs (z2 - z1)) with (Z.abs (z1 - z2)) by lia.
Qed.

Lemma shift_after_alignment_witness :
  ∃ z1 z2,
    pks_ali_get (pks_ali trio_aligned) "B" = Return (PyInt z1) ∧
    pks_ali_get (pks_ali trio_aligned) "C" = Return (PyInt z2) ∧
    0 ≤ Z.abs (z1 - z2) ∧
    calc_shift trio_aligned [] ("B", "C") = Return ([] ++ [PyInt (Z.abs (z1 - z2))]) ∧
    calc_shift trio_aligned [] ("C", "B") = Return ([] ++ [PyInt (Z.abs (z1 - z2))]).
Proof.
  apply (shift_after_alignment exact_spread Z.ltb sym_medi sym_round
           trio trio_aligned (mkProtein "B" (flat 72) [])
           (mkProtein "C" (flat 72) [5]) []).
  - apply (bool_decide_unpack _). vm_compute. exact I.
  - vm_compute. reflexivity.
  - apply list_elem_of_further, list_elem_of_here.
  - apply list_elem_of_further, list_elem_of_further, list_elem_of_here.
Defined.

(** * Further properties: windows *)

(** X16. From fraction 5 on, the window that [calc_width] hands to
    [fwhm] starts five fractions before the consensus peak and holds the
    next ten fractions, fewer only where the profile ends. *)
Theorem width_window_from_fraction_5 {float} (prot : ProteinProfile float)
    (peak : Z) :
  5 ≤ peak →
  length (prot_peak prot peak)
    = Nat.min 10 (length (inten prot) - Z.to_nat (peak - 5)) ∧
  ∀ k, (k < 10)%nat →
       prot_peak prot peak !! k = inten prot !! (Z.to_nat (peak - 5) + k)%nat.
Proof.
  intros Hpeak. rewrite prot_peak_centered by done. split.
  - by rewrite length_take, length_drop.
  - intros k Hk. by rewrite lookup_take_lt, lookup_drop by done.
Qed.

Lemma width_window_from_fraction_5_witness :
  length (prot_peak (mkProtein "A" ramp [70]) 70)
    = Nat.min 10 (length ramp - Z.to_nat (70 - 5)) ∧
  ∀ k, (k < 10)%nat →
       prot_peak (mkProtein "A" ramp [70]) 70 !! k
       = ramp !! (Z.to_nat (70 - 5) + k)%nat.
Proof.
  apply (width_window_from_fraction_5 (mkProtein "A" ramp [70]) 70). lia.
Defined.

Lemma filter_none {A} (P : A → Prop) `{∀ x, Decision (P x)} (l : list A) :
  Forall (λ x, ¬ P x) l → filter P l = [].
Proof.
  induction 1 as [|x l Hx _ IH]; [done|].
  by rewrite filter_cons, decide_False, IH.
Qed.

(** X17. In [calc_corr] the mask of column [j] keeps exactly the rows
    [j, ..., j + W - 1]: every correlation value rests on [W] consecutive
    fractions. *)
Theorem mask_keeps_one_window (W : Z) (j m : nat) :
  0 ≤ W → (j + Z.to_nat W ≤ m)%nat →
  filter (λ i, mask W i j = true) (seq 0 m) = seq j (Z.to_nat W).
Proof.
  intros HW Hm.
  replace m with (j + (Z.to_nat W + (m - j - Z.to_nat W)))%nat by lia.
  rewrite !seq_app, !filter_app. simpl.
  rewrite (filter_none _ (seq 0 j)), (filter_all _ (seq j (Z.to_nat W))),
    (filter_none _ (seq (j + Z.to_nat W) _)).
  - by rewrite app_nil_r.
  - apply Forall_forall. intros i [Hlo Hhi]%elem_of_seq. unfold mask.
    destruct (Nat.leb_spec j i), (Z.ltb_spec (Z.of_nat i) (Z.of_nat j + W));
      simpl; try done; lia.
  - apply Forall_forall. intros i [Hlo Hhi]%elem_of_seq. unfold mask.
    destruct (Nat.leb_spec j i), (Z.ltb_spec (Z.of_nat i) (Z.of_nat j + W));
      simpl; try done; lia.
  - apply Forall_forall. intros i [Hlo Hhi]%elem_of_seq. unfold mask.
    destruct (Nat.leb_spec j i), (Z.ltb_spec (Z.of_nat i) (Z.of_nat j + W));
      simpl; try done; lia.
Qed.

Lemma mask_keeps_one_window_witness :
  filter (λ i, mask 10 i 62 = true) (seq 0 72) = seq 62 (Z.to_nat 10).
Proof. apply (mask_keeps_one_window 10 62 72); [lia|simpl; lia]. Defined.

(** * Further properties: the text of a record and the loop over the file *)

Lemma str_split_not_nil (sep : Ascii.ascii) (s : string) : str_split sep s ≠ [].
Proof.
  destruct s as [|c s]; simpl; [done|].
  destruct (Ascii.eqb c sep); [done|]. by destruct (str_split sep s).
Qed.

Lemma re_split_tabs_not_nil (s : string) : re_split_tabs s ≠ [].
Proof.
  destruct s as [|c s]; simpl; [done|].
  destruct (Ascii.eqb c tab_char); [done|]. by destruct (re_split_tabs s).
Qed.

Lemma join_cons_not_nil (sep x : string) (xs : list string) :
  xs ≠ [] → join sep (x :: xs) = x +:+ sep +:+ join sep xs.
Proof. by destruct xs. Qed.

(** Joining the pieces of a split gives the text back. *)
Lemma join_str_split (sep : Ascii.ascii) (s : string) :
  join (String sep EmptyString) (str_split sep s) = s.
Proof.
  induction s as [|c s IH]; [done|]. simpl.
  destruct (Ascii.eqb_spec c sep) as [->|Hne].
  - rewrite join_cons_not_nil by apply str_split_not_nil. simpl. by rewrite IH.
  - destruct (str_split sep s) as [|w ws] eqn:Hsplit.
    { by apply str_split_not_nil in Hsplit. }
    destruct ws as [|w' ws]; simpl in *; by rewrite <- IH.
Qed.

Section DriverFacts.
Context {float sdval : Type}.
Variable float_of_string : string → outcome float.
Variable peak_picking : list float → list Q.
Variable np_std : list (option Z) → sdval.
Variable sd_lt : sdval → sdval → bool.
Variable medi : option (list (option Z)) → outcome float.
Variable py_round : float → outcome Z.
Variable fwhm : list float → outcome float.
Variable np_mean : list float → float.
Variables calc_go_score pairwise : ComplexProfile float → outcome (ComplexProfile float).
Variable create_row : ComplexProfile float → outcome string.

Local Abbreviation mp_line :=
  (mp_cmplx_line float_of_string peak_picking np_std sd_lt medi py_round
     fwhm np_mean calc_go_score pairwise create_row).

(** The loop of [format_hash] over accessions that are all new. *)
Lemma format_hash_loop_distinct (inten : list string) (l : list (nat * string))
    (tmp c : ComplexProfile float) :
  NoDup (get_members tmp ++ l.*2) →
  for_each
    (λ tmp '(idx, acc),
       if bool_decide (acc ∈ get_members tmp) then Return tmp
       else
         match inten !! idx with
         | None => Raise IndexError
         | Some s =>
             xs ←! for_each (λ xs x, v ←! float_of_string x; Return (xs ++ [v]))
                     [] (str_split comma_char s);
             Return (add_member tmp (calc_peaks peak_picking (new_protein acc xs)))
         end) tmp l = Return c →
  get_members c = get_members tmp ++ l.*2 ∧ name c = name tmp.
Proof.
  revert tmp. induction l as [|[idx a] l IH]; intros tmp Hnd; simpl.
  - intros [= <-]. by rewrite app_nil_r.
  - rewrite bool_decide_eq_false_2.
    2:{ apply NoDup_app in Hnd as (_ & Hdis & _). intros Hin.
        apply (Hdis _ Hin). by left. }
    destruct (inten !! idx) as [s|]; [|done]. simpl.
    destruct (for_each _ [] (str_split comma_char s)) as [xs| |]; [|done..]. simpl.
    intros Hrun. apply IH in Hrun as [Hmem Hname].
    + unfold get_members, add_member in *. simpl in *.
      rewrite Hmem, fmap_app, <- app_assoc. done.
    + unfold get_members, add_member. simpl.
      rewrite fmap_app, <- app_assoc. exact Hnd.
Qed.

Lemma mp_line_no_header (line : string) :
  String.prefix ("ID" +:+ tab) (rstrip_newlines line) = false →
  mp_line (mkState [] ∅ ([], [])) line = Return (mkState [] ∅ ([], [])).
Proof. intros Hline. unfold mp_cmplx_line. rewrite Hline. done. Qed.

Lemma process_adds_at_most_one (fs fs' : list string * list string)
    (cmplx : ComplexProfile float) :
  process np_std sd_lt medi py_round fwhm np_mean calc_go_score pairwise
    create_row fs cmplx = Return fs' →
  (length fs'.1 ≤ S (length fs.1))%nat.
Proof.
  unfold process. destruct (gen_feat _ _ _ _ _ _ _ _ _ _) as [[c r]| |]; [|done..].
  simpl. intros [= <-]. unfold collect.
  destruct r as [[row|] [pk|]]; simpl; try lia.
  case_bool_decide; simpl; [lia|]. rewrite length_app. simpl. lia.
Qed.

Lemma mp_line_adds_at_most_one (st st' : mp_state) (line : string) :
  mp_line st line = Return st' →
  (length (files st').1 ≤ S (length (files st).1))%nat.
Proof.
  unfold mp_cmplx_line.
  destruct (String.prefix _ _); simpl;
    (case_bool_decide; simpl; [|intros [= <-]; simpl; lia]);
    (destruct (format_hash _ _ _) as [c| |]; [|done..]); simpl;
    (destruct (process _ _ _ _ _ _ _ _ _ _ _) as [fs'| |] eqn:Hp; [|done..]);
    simpl; intros [= <-]; simpl; by apply process_adds_at_most_one in Hp.
Qed.

Lemma mp_loop_adds_at_most_one_per_line (lines : list string) (st st' : mp_state) :
  for_each mp_line st lines = Return st' →
  (length (files st').1 ≤ length (files st).1 + length lines)%nat.
Proof.
  revert st. induction lines as [|line lines IH]; intros st; simpl.
  - intros [= <-]. lia.
  - destruct (mp_line st line) as [st1| |] eqn:Hline; [|done..]. simpl.
    intros Hrest%IH. apply mp_line_adds_at_most_one in Hline. lia.
Qed.

(** After the header line and a record, the header line again and the
    record again leave the loop in the same state. *)
Lemma mp_line_header_again (st : mp_state) (h r : string) :
  String.prefix ("ID" +:+ tab) (rstrip_newlines h) = true →
  String.prefix ("ID" +:+ tab) (rstrip_newlines r) = false →
  header st = re_split_tabs (rstrip_newlines h) →
  temp st = py_dict (zip (header st) (re_split_tabs (rstrip_newlines r))) →
  mp_line st h = mp_line st r.
Proof.
  intros Hh Hr Hhead Htemp. unfold mp_cmplx_line.
  rewrite Hh, Hr. simpl. by rewrite <- Htemp, <- Hhead.
Qed.

Lemma mp_line_record_state (st st' : mp_state) (r : string) :
  String.prefix ("ID" +:+ tab) (rstrip_newlines r) = false →
  mp_line st r = Return st' →
  header st' = header st ∧
  temp st' = py_dict (zip (header st) (re_split_tabs (rstrip_newlines r))).
Proof.
  intros Hr. unfold mp_cmplx_line. rewrite Hr. simpl.
  case_bool_decide; simpl; [|by intros [= <-]].
  destruct (format_hash _ _ _) as [c| |]; [|done..]. simpl.
  destruct (process _ _ _ _ _ _ _ _ _ _ _) as [fs'| |]; [|done..]. simpl.
  by intros [= <-].
Qed.

Lemma mp_line_first_header (h : string) :
  String.prefix ("ID" +:+ tab) (rstrip_newlines h) = true →
  mp_line (mkState [] ∅ ([], [])) h
  = Return (mkState (re_split_tabs (rstrip_newlines h)) ∅ ([], [])).
Proof. intros Hh. unfold mp_cmplx_line. rewrite Hh. done. Qed.

(** X18. Without a header line (a line that starts with [ID] and a tab)
    [mp_cmplx] reads every line against an empty header, so that no
    record is formed: it returns two empty files and does not raise. *)
Theorem file_without_header_yields_nothing (lines : list string) :
  Forall (λ line, String.prefix ("ID" +:+ tab) (rstrip_newlines line) = false) lines →
  mp_cmplx float_of_string peak_picking np_std sd_lt medi py_round fwhm np_mean
    calc_go_score pairwise create_row lines = Return ([], []).
Proof.
  intros Hall. unfold mp_cmplx.
  assert (for_each mp_line (mkState [] ∅ ([], [])) lines
          = Return (mkState [] ∅ ([], []))) as ->; [|done].
  induction Hall as [|line lines Hline _ IH]; [done|].
  simpl. by rewrite mp_line_no_header.
Qed.

(** X19. A line after the header that has too few fields to reach the
    column [FT] is not skipped: [format_hash] looks up [FT] first and
    [mp_cmplx] ends with [KeyError], whatever lines follow. *)
Theorem short_record_raises_key_error (h r : string) (rest : list string) :
  String.prefix ("ID" +:+ tab) (rstrip_newlines h) = true →
  String.prefix ("ID" +:+ tab) (rstrip_newlines r) = false →
  (∀ i, re_split_tabs (rstrip_newlines h) !! i = Some "FT" →
        (length (re_split_tabs (rstrip_newlines r)) ≤ i)%nat) →
  mp_cmplx float_of_string peak_picking np_std sd_lt medi py_round fwhm np_mean
    calc_go_score pairwise create_row (h :: r :: rest)
  = Raise KeyError.
Proof.
  intros Hh Hr Hshort. unfold mp_cmplx. simpl.
  rewrite mp_line_first_header by done. simpl.
  unfold mp_cmplx_line at 1. rewrite Hr. simpl.
  set (H := re_split_tabs (rstrip_newlines h)) in *.
  set (things := re_split_tabs (rstrip_newlines r)) in *.
  assert (py_dict (zip H things) ≠ ∅) as Hne.
  { assert (zip H things ≠ []) as Hzip.
    { pose proof (re_split_tabs_not_nil (rstrip_newlines h)).
      pose proof (re_split_tabs_not_nil (rstrip_newlines r)).
      fold H in H0. fold things in H1. by destruct H, things. }
    destruct (zip H things) as [|x l] using rev_ind; [done|].
    destruct x as [k v]. rewrite py_dict_snoc. apply insert_non_empty. }
  rewrite bool_decide_eq_true_2 by done.
  assert (py_dict (zip H things) !! "FT" = None) as Hft.
  { rewrite py_dict_reverse. apply not_elem_of_list_to_map.
    rewrite fmap_reverse, elem_of_reverse.
    intros ([k v] & Hk & [i Hi]%list_elem_of_lookup)%list_elem_of_fmap.
    simpl in Hk. subst k. apply lookup_zip_Some in Hi as [Hi1 Hi2].
    apply Hshort in Hi1. apply lookup_lt_Some in Hi2. lia. }
  unfold format_hash, dict_get. by rewrite Hft.
Qed.

(** X20. A header line that comes again after a record makes the loop
    form that record a second time: the file counts the record twice,
    as if its line were repeated. *)
Theorem repeated_header_repeats_record (h r : string) (rest : list string) :
  String.prefix ("ID" +:+ tab) (rstrip_newlines h) = true →
  String.prefix ("ID" +:+ tab) (rstrip_newlines r) = false →
  mp_cmplx float_of_string peak_picking np_std sd_lt medi py_round fwhm np_mean
    calc_go_score pairwise create_row (h :: r :: h :: rest)
  = mp_cmplx float_of_string peak_picking np_std sd_lt medi py_round fwhm np_mean
    calc_go_score pairwise create_row (h :: r :: r :: rest).
Proof.
  intros Hh Hr. unfold mp_cmplx. simpl.
  rewrite mp_line_first_header by done. simpl.
  destruct (mp_line _ r) as [st2| |] eqn:Hline; [|done..]. simpl.
  apply mp_line_record_state in Hline as [Hhead Htemp]; [|done]. simpl in *.
  rewrite (mp_line_header_again st2 h r); [done|done|done|done|].
  by rewrite Hhead.
Qed.

(** X21. [mp_cmplx] appends at most one feature row per line of the
    file. *)
Theorem at_most_one_feature_row_per_line (lines : list string)
    (fs : list string * list string) :
  mp_cmplx float_of_string peak_picking np_std sd_lt medi py_round fwhm np_mean
    calc_go_score pairwise create_row lines = Return fs →
  (length fs.1 ≤ length lines)%nat.
Proof.
  unfold mp_cmplx.
  destruct (for_each _ _ lines) as [st| |] eqn:Hrun; [|done..]. simpl.
  intros [= <-]. by apply mp_loop_adds_at_most_one_per_line in Hrun.
Qed.

(** X22. The member column comes back as it was read: when the [MB]
    field of a record names no accession twice, [format_ids] of the
    complex that [format_hash] builds is that field, and the complex
    carries the [ID] of the record. *)
Theorem format_ids_gives_back_members (temp : gmap string string)
    (mb id : string) (c : ComplexProfile float) :
  format_hash float_of_string peak_picking temp = Return c →
  temp !! "MB" = Some mb → temp !! "ID" = Some id →
  NoDup (str_split hash_char mb) →
  format_ids c = mb ∧ name c = id ∧ get_members c = str_split hash_char mb.
Proof.
  intros Hrun Hmb Hid Hnd. unfold format_hash, dict_get in Hrun.
  rewrite Hmb, Hid in Hrun.
  destruct (temp !! "FT") as [ft|]; [|done]. simpl in Hrun.
  apply format_hash_loop_distinct in Hrun as [Hmem Hname].
  - rewrite imap_pair_snd in Hmem. simpl in Hmem. split; [|done].
    unfold format_ids. rewrite Hmem. apply (join_str_split hash_char).
  - by rewrite imap_pair_snd.
Qed.
End DriverFacts.

Lemma file_without_header_yields_nothing_witness :
  sym_mp_cmplx [record_line; record_line] = Return ([], []).
Proof.
  apply (file_without_header_yields_nothing sym_float_of_string twice_three
           exact_spread Z.ltb sym_medi sym_round sym_fwhm SMean
           no_go_score no_pairwise name_row [record_line; record_line]).
  repeat constructor.
Defined.

Lemma short_record_raises_key_error_witness :
  sym_mp_cmplx [header_line; "X"; record_line] = Raise KeyError.
Proof.
  apply (short_record_raises_key_error sym_float_of_string twice_three
           exact_spread Z.ltb sym_medi sym_round sym_fwhm SMean
           no_go_score no_pairwise name_row header_line "X" [record_line]).
  - reflexivity.
  - reflexivity.
  - intros i. vm_compute. destruct i as [|[|[|i]]]; try discriminate. lia.
Defined.

Lemma repeated_header_repeats_record_witness :
  sym_mp_cmplx [header_line; record_line; header_line]
  = sym_mp_cmplx [header_line; record_line; record_line].
Proof.
  apply (repeated_header_repeats_record sym_float_of_string twice_three
           exact_spread Z.ltb sym_medi sym_round sym_fwhm SMean
           no_go_score no_pairwise name_row header_line record_line []).
  - reflexivity.
  - reflexivity.
Defined.

Lemma at_most_one_feature_row_per_line_witness :
  (length (["X"],
           ["A" +:+ tab +:+ "X" +:+ tab +:+ "3#3" +:+ tab +:+ "3";
            "B" +:+ tab +:+ "X" +:+ tab +:+ "3#3" +:+ tab +:+ "3"]).1
   ≤ length [header_line; record_line])%nat.
Proof.
  apply (at_most_one_feature_row_per_line sym_float_of_string twice_three
           exact_spread Z.ltb sym_medi sym_round sym_fwhm SMean
           no_go_score no_pairwise name_row [header_line; record_line]).
  vm_compute. reflexivity.
Defined.

Lemma format_ids_gives_back_members_witness :
  format_ids record_complex = "A#B" ∧ name record_complex = "X" ∧
  get_members record_complex = str_split hash_char "A#B".
Proof.
  apply (format_ids_gives_back_members sym_float_of_string twice_three
           record_temp "A#B" "X" record_complex).
  - vm_compute. reflexivity.
  - vm_compute. reflexivity.
  - vm_compute. reflexivity.
  - apply (bool_decide_unpack _). vm_compute. exact I.
Defined.
(** * Properties of the windows and the label test of differential.py *)

Lemma int_of_number_pred (s : Z) : int_of_number (inject_Z s - 1) = s - 1.
Proof.
  unfold int_of_number. simpl. rewrite Z.quot_1_r. lia.
Qed.

Lemma int_of_number_below (x : Q) (k : Z) :
  0 ≤ int_of_number x → Qle x (inject_Z k) → int_of_number x ≤ k.
Proof.
  unfold int_of_number, Qle. destruct x as [n d]. simpl. intros H0 Hle.
  destruct (Z.le_gt_cases 0 n) as [Hn|Hn].
  - rewrite Z.quot_div_nonneg by lia. apply Z.div_le_upper_bound; lia.
  - pose proof (Z.quot_opp_l n (Z.pos d) ltac:(lia)) as Hq.
    pose proof (Z.quot_pos (- n) (Z.pos d) ltac:(lia) ltac:(lia)).
    assert (n ÷ Z.pos d = 0) as Hz by lia.
    rewrite Hz. apply Z.quot_small_iff in Hz; [|lia]. nia.
Qed.

Lemma seqZ_pretty_length (m n : Z) : length (pretty <$> seqZ m n : list string) = Z.to_nat n.
Proof. by rewrite length_fmap, length_seqZ. Qed.

(** X23. on a row of 72 fractions and for a half width [q] from 1 to 36,
    [extract_local_peak] returns exactly [2 * q] entries, whatever the selected
    fraction is: as many as [extract_inte] has column names for. *)
Theorem local_peak_has_one_entry_per_column (SEL : Q) (INT : string) (q : Z) :
  length (str_split hash_char INT) = 72%nat →
  1 ≤ q ≤ 36 →
  length (extract_local_peak SEL INT q) = Z.to_nat (2 * q)
  ∧ length (extract_local_peak SEL INT q) = length (extract_inte_vals q).
Proof.
  intros Hlen Hq.
  assert (length (extract_local_peak SEL INT q) = Z.to_nat (2 * q)) as H.
  { unfold extract_local_peak.
    destruct (Z.ltb_spec 36 q) as [?|_]; [lia|].
    destruct (Z.ltb_spec (int_of_number (SEL - 1)) q) as [Hpk|Hpk].
    - rewrite py_slice_length, Hlen, !slice_bound_nonneg by lia. lia.
    - destruct (Qle_bool SEL (inject_Z (72 - q))) eqn:Hsel; simpl.
      + apply Qle_bool_iff in Hsel.
        assert (int_of_number (SEL - 1) ≤ 71 - q) as Hup.
        { apply int_of_number_below; [lia|].
          replace (71 - q) with ((72 - q) + (- 1)) by lia.
          rewrite inject_Z_plus. unfold Qminus.
          apply Qplus_le_compat; [done|]. apply Qle_refl. }
        rewrite py_slice_length, Hlen, !slice_bound_nonneg by lia. lia.
      + rewrite py_slice_length, Hlen, (slice_bound_neg _ (- (q * 2))),
          (slice_bound_nonneg _ (Z.of_nat 72)) by lia.
        lia. }
  split; [done|]. rewrite H. unfold extract_inte_vals.
  destruct (Z.ltb_spec 36 q) as [?|_]; [lia|]. by rewrite seqZ_pretty_length.
Qed.

Lemma local_peak_has_one_entry_per_column_witness :
  length (extract_local_peak (141 # 2) (String.concat "#" (replicate 72 "1")) 12)
  = Z.to_nat (2 * 12)
  ∧ length (extract_local_peak (141 # 2) (String.concat "#" (replicate 72 "1")) 12)
    = length (extract_inte_vals 12).
Proof.
  apply local_peak_has_one_entry_per_column; [by vm_compute|lia].
Defined.

(** X24. for a whole fraction number [s], the window of [extract_local_peak]
    is the [2 * q] fractions from the index [s - 1 - q], moved into the row
    where it would pass either end; a fraction [s] of the row is therefore
    always inside its window. *)
Theorem local_peak_window_is_moved_inside (s : Z) (INT : string) (q : Z) :
  length (str_split hash_char INT) = 72%nat →
  1 ≤ q ≤ 36 →
  let start := Z.max 0 (Z.min (s - 1 - q) (72 - 2 * q)) in
  extract_local_peak (inject_Z s) INT q
  = take (Z.to_nat (2 * q)) (drop (Z.to_nat start) (str_split hash_char INT))
  ∧ (1 ≤ s ≤ 72 →
     extract_local_peak (inject_Z s) INT q !! Z.to_nat (s - 1 - start)
     = str_split hash_char INT !! Z.to_nat (s - 1)).
Proof.
  intros Hlen Hq start.
  assert (extract_local_peak (inject_Z s) INT q
          = take (Z.to_nat (2 * q))
              (drop (Z.to_nat start) (str_split hash_char INT))) as H.
  { unfold extract_local_peak. rewrite int_of_number_pred.
    destruct (Z.ltb_spec 36 q) as [?|_]; [lia|].
    destruct (Z.ltb_spec (s - 1) q) as [Hpk|Hpk].
    - unfold py_slice. rewrite Hlen, !slice_bound_nonneg by lia.
      f_equal; [lia|]. f_equal. lia.
    - destruct (Qle_bool (inject_Z s) (inject_Z (72 - q))) eqn:Hsel; simpl.
      + apply Qle_bool_iff in Hsel. rewrite <- Zle_Qle in Hsel.
        unfold py_slice. rewrite Hlen, !slice_bound_nonneg by lia.
        f_equal; [lia|]. f_equal. lia.
      + assert (72 - q < s) as Hs.
        { destruct (Z.lt_ge_cases (72 - q) s) as [?|Hge]; [done|].
          assert (Qle_bool (inject_Z s) (inject_Z (72 - q)) = true) as Ht
            by (apply Qle_bool_iff; rewrite <- Zle_Qle; lia).
          congruence. }
        unfold py_slice.
        rewrite Hlen, (slice_bound_neg _ (- (q * 2))),
          (slice_bound_nonneg _ (Z.of_nat 72)) by lia.
        f_equal; [lia|]. f_equal. lia. }
  split; [done|]. intros Hs. rewrite H.
  rewrite lookup_take_lt by lia. rewrite lookup_drop. f_equal. lia.
Qed.

Lemma local_peak_window_is_moved_inside_witness :
  let INT := String.concat "#" (pretty <$> seqZ 1 72) in
  let start := Z.max 0 (Z.min (3 - 1 - 12) (72 - 2 * 12)) in
  extract_local_peak (inject_Z 3) INT 12
  = take (Z.to_nat (2 * 12)) (drop (Z.to_nat start) (str_split hash_char INT))
  ∧ (1 ≤ 3 ≤ 72 →
     extract_local_peak (inject_Z 3) INT 12 !! Z.to_nat (3 - 1 - start)
     = str_split hash_char INT !! Z.to_nat (3 - 1)).
Proof.
  apply (local_peak_window_is_moved_inside 3); [by vm_compute|lia].
Defined.

Lemma foldl_andb {A} (f : A → bool) (b : bool) (l : list A) :
  foldl (λ ok cl, ok && f cl) b l = b && forallb f l.
Proof.
  revert b. induction l as [|x l IH]; intros b; simpl.
  - by rewrite andb_true_r.
  - by rewrite IH, andb_assoc.
Qed.

Lemma yok_unfold (y : list Z) :
  yok y = true ↔
  (1 < length y)%nat
  ∧ (1 < length (elements (list_to_set y : gset Z)))%nat
  ∧ ∀ a, a ∈ y → (1 < length (filter (λ v, v = a) y))%nat.
Proof.
  unfold yok. rewrite foldl_andb, !andb_true_iff, !Nat.ltb_lt, forallb_forall.
  split.
  - intros [[H1 H2] H3]. split_and!; [done|done|].
    intros a Ha. apply Nat.ltb_lt, H3, list_elem_of_In, elem_of_elements.
    by apply elem_of_list_to_set.
  - intros (H1 & H2 & H3). split_and!; [done|done|].
    intros a Ha%list_elem_of_In%elem_of_elements%elem_of_list_to_set.
    by apply Nat.ltb_lt, H3.
Qed.

Lemma two_levels (y : list Z) :
  (1 < length (elements (list_to_set y : gset Z)))%nat
  ↔ ∃ a b, a ≠ b ∧ a ∈ y ∧ b ∈ y.
Proof.
  pose proof (NoDup_elements (list_to_set y : gset Z)) as Hnd.
  assert (∀ a, a ∈ elements (list_to_set y : gset Z) ↔ a ∈ y) as Hel.
  { intros a. by rewrite elem_of_elements, elem_of_list_to_set. }
  destruct (elements (list_to_set y : gset Z)) as [|x [|x' l]] eqn:He.
  - split; [simpl; lia|]. intros (a & _ & _ & Ha%Hel & _).
    by apply elem_of_nil in Ha.
  - split; [simpl; lia|]. intros (a & b & Hab & Ha%Hel & Hb%Hel).
    apply list_elem_of_singleton in Ha, Hb. congruence.
  - split; [|simpl; lia]. intros _. exists x, x'. split_and!.
    + apply NoDup_cons in Hnd as [Hx _]. intros ->. apply Hx. left.
    + apply Hel. left.
    + apply Hel. right. left.
Qed.

Lemma two_levels_count (a b : Z) (y : list Z) :
  a ≠ b →
  (length (filter (λ v, v = a) y) + length (filter (λ v, v = b) y) ≤ length y)%nat.
Proof.
  intros Hab. induction y as [|x y IH]; [done|].
  rewrite !filter_cons.
  destruct (decide (x = a)), (decide (x = b)); simpl; lia.
Qed.

(** X25. [yok] accepts a vector of labels exactly when it has two different
    labels and every label in it occurs at least twice. *)
Theorem yok_wants_replicates_of_two_levels (y : list Z) :
  yok y = true
  ↔ (∃ a b, a ≠ b ∧ a ∈ y ∧ b ∈ y)
    ∧ ∀ a, a ∈ y → (2 ≤ length (filter (λ v, v = a) y))%nat.
Proof.
  rewrite yok_unfold, two_levels. split.
  - intros (_ & H2 & H3). split; [done|]. intros a Ha. specialize (H3 a Ha). lia.
  - intros [H2 H3]. split_and!; [|done|].
    + destruct H2 as (a & b & Hab & Ha & Hb).
      pose proof (two_levels_count a b y Hab).
      pose proof (H3 a Ha). pose proof (H3 b Hb). lia.
    + intros a Ha. specialize (H3 a Ha). lia.
Qed.

(** X26. a vector of labels that [yok] accepts has at least four samples. *)
Theorem yok_needs_four_samples (y : list Z) :
  yok y = true → (4 ≤ length y)%nat.
Proof.
  intros (_ & (a & b & Hab & Ha & Hb)%two_levels & H3)%yok_unfold.
  pose proof (two_levels_count a b y Hab).
  pose proof (H3 a Ha). pose proof (H3 b Hb). lia.
Qed.

Lemma yok_needs_four_samples_witness : (4 ≤ length [0; 1; 0; 1]%Z)%nat.
Proof.
  apply (yok_needs_four_samples [0; 1; 0; 1]). by vm_compute.
Defined.
